(** * Patch Tuesday viewer: the data-shaping pipeline of [PatchTuesday]

    A shallow embedding of the page component of the JSON viewer, the one
    that loads a [PatchTuesdayData] per month, and of the older text viewer
    (src/app/page.tsx): the severity classifier [getCvssSeverity], the index
    grouping done by the first [useEffect], the month loader of the second
    one, the category filter and score sort of the third one, and
    [getSummaryStats].

    JavaScript values are modelled as follows.
    - [number] is a binary64 float: Rocq's primitive [float], whose
      operations are the IEEE 754 ones JavaScript uses.
    - [string] is a sequence of code units, here [string] (a list of
      [ascii]); every string operation the code uses ([split], [endsWith],
      [replace], [===], the default sort order) works unit by unit.
    - an exception is a [Throw] completion; a promise chain is a function
      from the settled result to the next state.
    - the plain object [grouped] is a [gmap] from keys to arrays, together
      with the property names every object inherits from [Object.prototype].
    - an array that is sorted in place or aliased lives in a store of arrays
      indexed by locations. *)

From Stdlib Require Import Floats ZArith Ascii Sorted Permutation.
From stdpp Require Import gmap strings list.

Set Warnings "-inexact-float".
Set Default Proof Using "Type".

Open Scope string_scope.
Open Scope list_scope.

(** ** Completions: a value or a thrown exception *)

Inductive exn : Type :=
| TypeError (msg : string)
| Error (msg : string)
| SyntaxError (msg : string).

Inductive completion (A : Type) : Type :=
| Normal (a : A)
| Throw (e : exn).

Arguments Normal {A} a.
Arguments Throw {A} e.

#[global] Instance completion_ret : MRet completion := @Normal.
#[global] Instance completion_bind : MBind completion :=
  fun A B f c => match c with Normal a => f a | Throw e => Throw e end.

Definition completes {A} (c : completion A) : Prop := exists a, c = Normal a.

(** ** Strings *)

Module JSString.

(** [s.split(sep)] for a separator of one code unit. *)
Fixpoint split (sep : ascii) (s : string) : list string :=
  match s with
  | EmptyString => [EmptyString]
  | String c s' =>
      if Ascii.eqb c sep then EmptyString :: split sep s'
      else match split sep s' with
           | [] => [String c EmptyString]
           | seg :: rest => String c seg :: rest
           end
  end.

(** [s.endsWith(suffix)]: some tail of [s] is [suffix]. *)
Fixpoint endsWith (s suffix : string) : bool :=
  String.eqb s suffix ||
  match s with
  | EmptyString => false
  | String _ s' => endsWith s' suffix
  end.

Fixpoint drop (n : nat) (s : string) : string :=
  match n, s with
  | O, _ => s
  | S n', String _ s' => drop n' s'
  | S _, EmptyString => EmptyString
  end.

(** [s.replace(pat, rep)] with a string pattern: the first occurrence
    only. *)
Fixpoint replace (pat rep s : string) : string :=
  if String.prefix pat s then rep +:+ drop (String.length pat) s
  else match s with
       | EmptyString => EmptyString
       | String c s' => String c (replace pat rep s')
       end.

(** [s.includes(sep)] for one code unit. *)
Fixpoint hasSeparator (sep : ascii) (s : string) : bool :=
  match s with
  | EmptyString => false
  | String c s' => Ascii.eqb c sep || hasSeparator sep s'
  end.

End JSString.

(** ** Arrays *)

Module JSArray.

Fixpoint indexOf_from (x : string) (l : list string) (i : Z) : Z :=
  match l with
  | [] => (-1)%Z
  | y :: l' => if String.eqb y x then i else indexOf_from x l' (i + 1)%Z
  end.

(** [l.indexOf(x)]: the first index holding [x], or -1. *)
Definition indexOf (l : list string) (x : string) : Z := indexOf_from x l 0%Z.

(** [l.includes(x)] *)
Definition includes (l : list string) (x : string) : bool :=
  existsb (String.eqb x) l.

(** [Array.prototype.sort(comparefn)].  ECMAScript fixes the result for a
    consistent comparator: the stable arrangement in which no element is
    followed by one the comparator puts before it.  Which pairs are
    compared is left open, but every element of an array of two or more
    is compared at least once, so a comparator that throws on an element
    makes the sort throw.  The insertion sort below has both properties.
    [after x y] is [comparefn(x, y) > 0]; a NaN result counts as +0. *)
Section Sort.
Context {A : Type}.
Variable after : A -> A -> completion bool.

Fixpoint insert (x : A) (l : list A) : completion (list A) :=
  match l with
  | [] => Normal [x]
  | y :: l' =>
      b ← after x y;
      if b : bool then r ← insert x l'; Normal (y :: r)
      else Normal (x :: y :: l')
  end.

Fixpoint sort (l : list A) : completion (list A) :=
  match l with
  | [] => Normal []
  | x :: l' => s ← sort l'; insert x s
  end.
End Sort.

(** The same sort for a comparator that cannot throw. *)
Section PureSort.
Context {A : Type}.
Variable after : A -> A -> bool.

Fixpoint insert_by (x : A) (l : list A) : list A :=
  match l with
  | [] => [x]
  | y :: l' => if after x y then y :: insert_by x l' else x :: y :: l'
  end.

Fixpoint sort_by (l : list A) : list A :=
  match l with
  | [] => []
  | x :: l' => insert_by x (sort_by l')
  end.
End PureSort.

(** The default order of [sort()] on strings: by code units. *)
Definition sortStrings (l : list string) : list string :=
  sort_by (fun x y => String.ltb y x) l.

(** [Array.from(new Set(l))]: the first occurrence of each value, in
    order. *)
Fixpoint uniq (seen l : list string) : list string :=
  match l with
  | [] => []
  | x :: l' => if includes seen x then uniq seen l' else x :: uniq (x :: seen) l'
  end.

End JSArray.

(** ** Numbers *)

Module JSNumber.
Open Scope float_scope.

(** [v > 0] for the result of a comparator (false for NaN). *)
Definition positive (v : float) : bool := 0 <? v.

(** [x >= y] *)
Definition geb (x y : float) : bool := y <=? x.

(** An array length as a number. *)
Definition of_nat (n : nat) : float := of_uint63 (Uint63.of_Z (Z.of_nat n)).

(** [Number.isNaN(x)]: NaN is the one number that differs from itself. *)
Definition is_nan (x : float) : bool := negb (x =? x).
End JSNumber.

(** Shapes of specification floats used to state the order facts below. *)
Module Binary64.
(** An infinity or a finite number of sign [s]. *)
Definition signed (s : bool) (r : spec_float) : Prop :=
  r = S754_infinity s \/ exists m e, r = S754_finite s m e.

Definition not_nan (x : spec_float) : Prop := x <> S754_nan.
End Binary64.

(** ** Data model (the interfaces of the JSON payload) *)

Module Metadata.
Record t : Type := mk {
  title : string;
  tracking_id : string;
  release_date : string;
  current_release_date : string;
  total_vulnerabilities : float;
  processed_date : string;
  script_version : string
}.
End Metadata.

Module ProductInfo.
Record t : Type := mk { name : string; category : string }.
End ProductInfo.

Module AffectedProduct.
Record t : Type := mk { id : string; name : string; category : string }.
End AffectedProduct.

Record Vulnerability : Type := mkVulnerability {
  cve : string;
  title : string;
  cvss_score : option float;
  exploited : bool;
  exploitation_likely : bool;
  threat_types : list string;
  affected_products : list AffectedProduct.t
}.

(** [products] is the object's entries in property order, so that
    [Object.values] is the list of second components. *)
Record PatchTuesdayData : Type := mkPatchTuesdayData {
  metadata : Metadata.t;
  products : list (string * ProductInfo.t);
  vulnerabilities : list Vulnerability
}.

Definition MONTH_ORDER : list string :=
  ["Jan"; "Feb"; "Mar"; "Apr"; "May"; "Jun"; "Jul"; "Aug"; "Sep"; "Oct"; "Nov"; "Dec"].

Definition VULN_TYPES : list string :=
  ["Elevation of Privilege"; "Security Feature Bypass"; "Remote Code Execution";
   "Information Disclosure"; "Denial of Service"; "Spoofing"; "Edge - Chromium"].

(** ** Severity classifier *)

Definition getCvssSeverity (score : option float) : string :=
  match score with
  | None => "None"
  | Some score =>
      if (score =? 0.0)%float then "None"
      else if (score <=? 3.9)%float then "Low"
      else if (score <=? 6.9)%float then "Medium"
      else if (score <=? 8.9)%float then "High"
      else "Critical"
  end.

Definition SEVERITY_LABELS : list string := ["None"; "Low"; "Medium"; "High"; "Critical"].

Definition displayCategory (cat : string) : string :=
  if String.eqb cat "Mariner" then "Azure Linux (CBL-Mariner)" else cat.

(** ** Index grouper *)

(** The property names a plain object inherits from [Object.prototype];
    each holds a function or an object, none of which has a [push]. *)
Definition inheritedKeys : list string :=
  ["constructor"; "__proto__"; "hasOwnProperty"; "isPrototypeOf";
   "propertyIsEnumerable"; "toLocaleString"; "toString"; "valueOf";
   "__defineGetter__"; "__defineSetter__"; "__lookupGetter__"; "__lookupSetter__"].

Definition notAFunction : exn := TypeError "grouped[year].push is not a function".
Definition undefinedReplace : exn :=
  TypeError "Cannot read properties of undefined (reading 'replace')".

(** [file.split("-")[0]]: always defined. *)
Definition yearOf (file : string) : string :=
  match JSString.split "-" file with
  | year :: _ => year
  | [] => ""
  end.

(** [data.forEach(f)] threading the object the callback updates. *)
Fixpoint forEach {S A : Type} (f : S -> A -> completion S) (s : S) (l : list A)
  : completion S :=
  match l with
  | [] => Normal s
  | x :: l' => s' ← f s x; forEach f s' l'
  end.

(** The two viewers differ in the files they accept and in the extension
    they strip from the month token. *)
Section IndexGrouper.
Variable accepts : string -> bool.
Variable ext : string.

(** The body of the [forEach] callback. *)
Definition groupStep (grouped : gmap string (list string)) (file : string)
  : completion (gmap string (list string)) :=
  if negb (accepts file) then Normal grouped
  else
    let year := yearOf file in
    match grouped !! year with
    | Some arr => Normal (<[year := arr ++ [file]]> grouped)
    | None =>
        if JSArray.includes inheritedKeys year then Throw notAFunction
        else Normal (<[year := [file]]> grouped)
    end.

(** [a.split("-")[1].replace(ext, "")] *)
Definition monthOf (a : string) : completion string :=
  match JSString.split "-" a with
  | _ :: month :: _ => Normal (JSString.replace ext "" month)
  | _ => Throw undefinedReplace
  end.

(** The comparator handed to [sort]. *)
Definition compareMonths (a b : string) : completion Z :=
  monthA ← monthOf a;
  monthB ← monthOf b;
  Normal (JSArray.indexOf MONTH_ORDER monthA - JSArray.indexOf MONTH_ORDER monthB)%Z.

(** Whether the comparator's result is positive. *)
Definition monthAfter (a b : string) : completion bool :=
  v ← compareMonths a b; Normal (0 <? v)%Z.

Definition sortGroup (arr : list string) : completion (list string) :=
  JSArray.sort monthAfter arr.

(** [for (const year in grouped) grouped[year].sort(...)].  Every failure
    is the same exception, so the order of the traversal does not show. *)
Definition sortGroups (grouped : gmap string (list string))
  : completion (gmap string (list string)) :=
  map_fold (fun year arr acc =>
              done ← acc; sorted ← sortGroup arr; Normal (<[year := sorted]> done))
           (Normal ∅) grouped.

(** The callback given the parsed index. *)
Definition groupIndex (data : list string) : completion (gmap string (list string)) :=
  grouped ← forEach groupStep ∅ data;
  sortGroups grouped.

(** The month position the comparator uses, for an identifier that has a
    month token. *)
Definition monthIndex (file : string) : option Z :=
  match monthOf file with
  | Normal month => Some (JSArray.indexOf MONTH_ORDER month)
  | Throw _ => None
  end.
End IndexGrouper.

Module JsonViewer.
Definition accepts (file : string) : bool := JSString.endsWith file ".json".
Definition ext : string := ".json".
Definition monthOf := monthOf ext.
Definition monthIndex := monthIndex ext.
Definition compareMonths := compareMonths ext.
Definition groupIndex := groupIndex accepts ext.
End JsonViewer.

Module TextViewer.
Definition accepts (file : string) : bool := true.
Definition ext : string := ".txt".
Definition groupIndex := groupIndex accepts ext.
End TextViewer.

(** ** Record filter and score sort *)

(** The value of the sort selector: [''], ['desc'] or ['asc']. *)
Inductive SortOrder : Type := NoSort | Desc | Asc.

(** [a.cvss_score ?? 0] *)
Definition scoreOrZero (v : Vulnerability) : float :=
  match cvss_score v with
  | Some s => s
  | None => 0%float
  end.

(** The comparator of the score sort. *)
Definition compareScores (cvssSort : SortOrder) (a b : Vulnerability) : float :=
  let aScore := scoreOrZero a in
  let bScore := scoreOrZero b in
  match cvssSort with
  | Desc => (bScore - aScore)%float
  | _ => (aScore - bScore)%float
  end.

(** Whether the comparator's result is positive. *)
Definition scoreAfter (cvssSort : SortOrder) (a b : Vulnerability) : bool :=
  JSNumber.positive (compareScores cvssSort a b).

(** [vuln.affected_products.some((prod) => prod.category === selectedCategory)] *)
Definition inCategory (selectedCategory : string) (vuln : Vulnerability) : bool :=
  existsb (fun prod => String.eqb (AffectedProduct.category prod) selectedCategory)
          (affected_products vuln).

(** The value computed by the filter effect, as a function of the array
    contents.  The empty string is the selector's "All". *)
Definition filterByCategory (selectedCategory : string) (vulns : list Vulnerability)
  : list Vulnerability :=
  if String.eqb selectedCategory "" then vulns
  else List.filter (inCategory selectedCategory) vulns.

(** [[...vulns].sort(...)] when a direction is selected; the comparator
    cannot throw, so the sort is the pure one. *)
Definition sortByScore (cvssSort : SortOrder) (vulns : list Vulnerability)
  : list Vulnerability :=
  match cvssSort with
  | NoSort => vulns
  | _ => JSArray.sort_by (scoreAfter cvssSort) vulns
  end.

Definition filterAndSort (selectedCategory : string) (cvssSort : SortOrder)
  (vulns : list Vulnerability) : list Vulnerability :=
  sortByScore cvssSort (filterByCategory selectedCategory vulns).

(** The same effect on a store of arrays: [filter] and the spread
    [[...vulns]] allocate, [sort] overwrites the array it is called on, and
    without a category [vulns] is the very array of the dataset. *)
Module Store.
Abbreviation loc := nat.
Abbreviation t := (list (list Vulnerability)).

Definition alloc (σ : t) (arr : list Vulnerability) : t * loc :=
  (σ ++ [arr], length σ).

Definition filterEffect (σ : t) (src : loc) (selectedCategory : string)
  (cvssSort : SortOrder) : option (t * loc) :=
  arr ← σ !! src;
  let '(σ1, vulns) :=
    if String.eqb selectedCategory "" then (σ, src)
    else alloc σ (List.filter (inCategory selectedCategory) arr) in
  match cvssSort with
  | NoSort => Some (σ1, vulns)
  | _ =>
      elems ← σ1 !! vulns;
      let '(σ2, copy) := alloc σ1 elems in
      Some (<[copy := JSArray.sort_by (scoreAfter cvssSort) elems]> σ2, copy)
  end.
End Store.

(** ** Summary aggregator *)

Module Stats.
Record t : Type := mk {
  total : nat;
  exploited : nat;
  likely : nat;
  high : nat;
  critical : nat;
  avg : float;
  byType : gmap string nat
}.
End Stats.

(** [.filter((s): s is number => s !== null)] *)
Fixpoint nonNull (l : list (option float)) : list float :=
  match l with
  | [] => []
  | Some s :: l' => s :: nonNull l'
  | None :: l' => nonNull l'
  end.

(** [cvssScores.reduce((a, b) => a + b, 0)] *)
Definition sum (scores : list float) : float :=
  fold_left (fun a b => (a + b)%float) scores 0%float.

(** [VULN_TYPES] has no repeated entry, so [Object.fromEntries] is the map
    of the pairs. *)
Definition getSummaryStats (vulns : list Vulnerability) : Stats.t :=
  let total := length vulns in
  let exploited := length (List.filter exploited vulns) in
  let likely := length (List.filter exploitation_likely vulns) in
  let cvssScores := nonNull (map cvss_score vulns) in
  let high := length (List.filter (fun s => JSNumber.geb s 7.0) cvssScores) in
  let critical := length (List.filter (fun s => JSNumber.geb s 9.0) cvssScores) in
  let avg :=
    match length cvssScores with
    | O => 0%float
    | _ => (sum cvssScores / JSNumber.of_nat (length cvssScores))%float
    end in
  let byType : gmap string nat :=
    list_to_map
      (map (fun type =>
              (type, length (List.filter (fun v => JSArray.includes (threat_types v) type) vulns)))
           VULN_TYPES) in
  Stats.mk total exploited likely high critical avg byType.

(** ** Data loader *)

(** How a [fetch] settles: the request is rejected, or a response arrives
    whose [ok] flag is read first and whose body is then parsed, which can
    throw.  A parsed body has the type the code gives it ([string[]],
    [PatchTuesdayData], or text). *)
Inductive fetched (A : Type) : Type :=
| Rejected (e : exn)
| Response (ok : bool) (body : completion A).

Arguments Rejected {A} e.
Arguments Response {A} ok body.

(** The first [then] of both chains. *)
Definition checkResponse {A} (what : string) (res : fetched A) : completion A :=
  match res with
  | Rejected e => Throw e
  | Response ok body => if negb ok then Throw (Error ("Failed to fetch " +:+ what)) else body
  end.

(** The state of the component, and what [console.error] has printed. *)
Record State : Type := mkState {
  data : option PatchTuesdayData;
  selectedCategory : string;
  categories : list string;
  filteredVulns : list Vulnerability;
  showSummary : bool;
  cvssSort : SortOrder;
  patches : gmap string (list string);
  openYears : gmap string bool;
  selected : option string;
  loading : bool;
  console : list (string * exn)
}.

Definition initialState : State :=
  mkState None "" [] [] true NoSort ∅ ∅ None false [].

Definition setData (x : option PatchTuesdayData) (st : State) : State :=
  mkState x (selectedCategory st) (categories st) (filteredVulns st) (showSummary st)
          (cvssSort st) (patches st) (openYears st) (selected st) (loading st) (console st).
Definition setSelectedCategory (x : string) (st : State) : State :=
  mkState (data st) x (categories st) (filteredVulns st) (showSummary st)
          (cvssSort st) (patches st) (openYears st) (selected st) (loading st) (console st).
Definition setCategories (x : list string) (st : State) : State :=
  mkState (data st) (selectedCategory st) x (filteredVulns st) (showSummary st)
          (cvssSort st) (patches st) (openYears st) (selected st) (loading st) (console st).
Definition setFilteredVulns (x : list Vulnerability) (st : State) : State :=
  mkState (data st) (selectedCategory st) (categories st) x (showSummary st)
          (cvssSort st) (patches st) (openYears st) (selected st) (loading st) (console st).
Definition setShowSummary (x : bool) (st : State) : State :=
  mkState (data st) (selectedCategory st) (categories st) (filteredVulns st) x
          (cvssSort st) (patches st) (openYears st) (selected st) (loading st) (console st).
Definition setCvssSort (x : SortOrder) (st : State) : State :=
  mkState (data st) (selectedCategory st) (categories st) (filteredVulns st) (showSummary st)
          x (patches st) (openYears st) (selected st) (loading st) (console st).
Definition setPatches (x : gmap string (list string)) (st : State) : State :=
  mkState (data st) (selectedCategory st) (categories st) (filteredVulns st) (showSummary st)
          (cvssSort st) x (openYears st) (selected st) (loading st) (console st).
Definition setSelected (x : option string) (st : State) : State :=
  mkState (data st) (selectedCategory st) (categories st) (filteredVulns st) (showSummary st)
          (cvssSort st) (patches st) (openYears st) x (loading st) (console st).
Definition setLoading (x : bool) (st : State) : State :=
  mkState (data st) (selectedCategory st) (categories st) (filteredVulns st) (showSummary st)
          (cvssSort st) (patches st) (openYears st) (selected st) x (console st).
Definition consoleError (msg : string) (e : exn) (st : State) : State :=
  mkState (data st) (selectedCategory st) (categories st) (filteredVulns st) (showSummary st)
          (cvssSort st) (patches st) (openYears st) (selected st) (loading st)
          (console st ++ [(msg, e)]).

(** [Array.from(new Set(Object.values(json.products).map((p) => p.category))).sort()] *)
Definition categoriesOf (json : PatchTuesdayData) : list string :=
  JSArray.sortStrings
    (JSArray.uniq [] (map (fun p => ProductInfo.category p) (map snd (products json)))).

(** The index chain: [then] (parse), [then] (group), [catch]. *)
Definition indexSettled (res : fetched (list string)) (st : State) : State :=
  match index ← checkResponse "index.json" res; JsonViewer.groupIndex index with
  | Normal grouped => setPatches grouped st
  | Throw e => consoleError "Error loading index.json:" e st
  end.

(** The month effect up to the request: nothing without a selection. *)
Definition monthRequested (st : State) : State :=
  match selected st with
  | None | Some "" => st
  | Some _ => setLoading true st
  end.

(** The second [then] of the month chain. *)
Definition monthLoaded (json : PatchTuesdayData) (st : State) : State :=
  setShowSummary true
    (setSelectedCategory ""
       (setCategories (categoriesOf json)
          (setData (Some json) st))).

(** Its [catch]. *)
Definition monthFailed (e : exn) (st : State) : State :=
  consoleError "Error loading patch content:" e
    (setCategories [] (setData None st)).

(** The whole month chain for the selection [file]: [then], [then],
    [catch], [finally].  The result is the completion the chain's promise
    settles with. *)
Definition monthSettled (file : string) (res : fetched PatchTuesdayData) (st : State)
  : completion State :=
  let handled :=
    match checkResponse file res with
    | Normal json => Normal (monthLoaded json st)
    | Throw e => Normal (monthFailed e st)
    end in
  st' ← handled; Normal (setLoading false st').

(** The filter effect on the state: nothing without a dataset. *)
Definition filterEffect (st : State) : State :=
  match data st with
  | None => st
  | Some d =>
      setFilteredVulns (filterAndSort (selectedCategory st) (cvssSort st) (vulnerabilities d)) st
  end.

(** The text viewer keeps the fetched text instead of a dataset. *)
Module TextState.
Record t : Type := mk {
  patches : gmap string (list string);
  selected : option string;
  content : string;
  console : list (string * exn)
}.

Definition contentSettled (file : string) (res : fetched string) (st : t) : t :=
  match checkResponse file res with
  | Normal text => mk (patches st) (selected st) text (console st)
  | Throw e =>
      mk (patches st) (selected st) "Failed to load content."
         (console st ++ [("Error loading patch content:", e)])
  end.
End TextState.

(** ** The specification's wording

    Definitions that follow the words of the specification, to be compared
    with the functions above. *)

(** The classification rule, clause by clause, each clause under the
    failure of the earlier ones. *)
Inductive severityRule : option float -> string -> Prop :=
| rule_absent : severityRule None "None"
| rule_zero s : (s =? 0)%float = true -> severityRule (Some s) "None"
| rule_low s :
    (s =? 0)%float = false -> (s <=? 3.9)%float = true -> severityRule (Some s) "Low"
| rule_medium s :
    (s =? 0)%float = false -> (s <=? 3.9)%float = false -> (s <=? 6.9)%float = true ->
    severityRule (Some s) "Medium"
| rule_high s :
    (s =? 0)%float = false -> (s <=? 3.9)%float = false -> (s <=? 6.9)%float = false ->
    (s <=? 8.9)%float = true -> severityRule (Some s) "High"
| rule_critical s :
    (s =? 0)%float = false -> (s <=? 3.9)%float = false -> (s <=? 6.9)%float = false ->
    (s <=? 8.9)%float = false -> severityRule (Some s) "Critical".

(** A record with at least one affected product of exactly this category. *)
Definition affects (selectedCategory : string) (vuln : Vulnerability) : Prop :=
  exists prod, In prod (affected_products vuln)
               /\ AffectedProduct.category prod = selectedCategory.

(** A record whose score is present and at least [threshold]. *)
Definition scoreAtLeast (threshold : float) (vuln : Vulnerability) : bool :=
  match cvss_score vuln with
  | Some s => (threshold <=? s)%float
  | None => false
  end.




(** A record that tags the threat type. *)
Definition tags (type : string) (vuln : Vulnerability) : Prop :=
  In type (threat_types vuln).

(** A record with the given score and nothing else. *)
Definition scored (s : option float) : Vulnerability :=
  mkVulnerability "" "" s false false [] [].

(** A record affecting one product of the given category. *)
Definition inOneCategory (cat : string) : Vulnerability :=
  mkVulnerability "" "" None false false [] [AffectedProduct.mk "" "" cat].

(** A record whose score, absent counting as 0, is a number and not NaN
    (a JSON payload cannot hold NaN). *)
Definition numericScore (vuln : Vulnerability) : Prop :=
  JSNumber.is_nan (scoreOrZero vuln) = false.

(** Ordered by score, an absent score counting as 0. *)
Definition scoreLe (a b : Vulnerability) : Prop :=
  (scoreOrZero a <=? scoreOrZero b)%float = true.

Definition scoreGe (a b : Vulnerability) : Prop := scoreLe b a.

(** The accepted identifiers of one year, in index order. *)
Definition membersOf (accepts : string -> bool) (year : string) (data : list string)
  : list string :=
  List.filter (fun file => accepts file && String.eqb (yearOf file) year) data.

(** The identifier has a month token and it is in the month table. *)
Definition recognized (ext file : string) : Prop :=
  exists month, monthOf ext file = Normal month /\ In month MONTH_ORDER.

(** The identifier has a month token and it is not in the month table. *)
Definition unrecognized (ext file : string) : Prop :=
  exists month, monthOf ext file = Normal month /\ ~ In month MONTH_ORDER.

(** In calendar order: both identifiers have a month position and the
    first one's is not the later. *)
Definition monthLe (ext : string) (a b : string) : Prop :=
  exists i j, monthIndex ext a = Some i /\ monthIndex ext b = Some j /\ (i <= j)%Z.

(** The comparator's sign on month positions, -1 standing for an
    identifier without a month token. *)
Definition monthKey (ext file : string) : Z :=
  match monthIndex ext file with
  | Some i => i
  | None => (-1)%Z
  end.

Definition monthAfterKey (ext : string) (a b : string) : bool :=
  (0 <? monthKey ext a - monthKey ext b)%Z.

(** The category values of the dataset's product mapping. *)
Definition categoryValues (json : PatchTuesdayData) : list string :=
  map (fun p => ProductInfo.category p) (map snd (products json)).

(** Strictly increasing in the order of code units. *)
Definition stringLt (x y : string) : Prop := String.ltb x y = true.

(** The fetch did not deliver a dataset: the request was rejected, the
    status was not a success, or the body did not parse. *)
Definition fetchFails {A} (res : fetched A) : Prop :=
  match res with
  | Rejected _ => True
  | Response ok body => ok = false \/ exists e, body = Throw e
  end.

(** ** Presentation: the helpers and derived values of the rendering *)

Module JSText.

Fixpoint copies (s : string) (n : nat) : string :=
  match n with
  | O => ""
  | S n' => s +:+ copies s n'
  end.

(** The RangeError of [repeat]; [exn] has no class of its own for it. *)
Definition invalidCount : exn := Error "RangeError: Invalid count value".

(** [s.repeat(count)] for an integer count: a negative one throws. *)
Definition repeat (s : string) (count : Z) : completion string :=
  if (count <? 0)%Z then Throw invalidCount else Normal (copies s (Z.to_nat count)).

(** [l.join(sep)] *)
Fixpoint join (sep : string) (l : list string) : string :=
  match l with
  | [] => ""
  | [x] => x
  | x :: l' => x +:+ sep +:+ join sep l'
  end.

(** The line feed. *)
Definition newline : ascii := "010"%char.

(** The number of occurrences of a code unit. *)
Fixpoint count (c : ascii) (s : string) : nat :=
  match s with
  | EmptyString => 0
  | String d s' => (if Ascii.eqb d c then 1 else 0) + count c s'
  end.

(** [l.map(f)] for a callback that can throw. *)
Fixpoint map {A B : Type} (f : A -> completion B) (l : list A) : completion (list B) :=
  match l with
  | [] => Normal []
  | x :: l' => y ← f x; ys ← map f l'; Normal (y :: ys)
  end.

End JSText.

(** [str + ' '.repeat(Math.max(0, len - str.length))] *)
Definition pad (str : string) (len : Z) : completion string :=
  spaces ← JSText.repeat " " (Z.max 0 (len - Z.of_nat (String.length str)));
  Normal (str +:+ spaces).

(** [title && title !== 'N/A'], for a title that can be undefined. *)
Definition usableTitle (title : option string) : bool :=
  match title with
  | Some t => negb (String.eqb t "") && negb (String.eqb t "N/A")
  | None => false
  end.

Definition msrcBase : string := "https://msrc.microsoft.com/update-guide/vulnerability/".
Definition cveOrgBase : string := "https://www.cve.org/CVERecord?id=".

Definition getCveUrl (cve : string) (title : option string) : string :=
  if usableTitle title then msrcBase +:+ cve else cveOrgBase +:+ cve.

(** The Products cell of the table: the distinct displayed categories. *)
Definition productLabels (vuln : Vulnerability) : list string :=
  JSArray.uniq []
    (map (fun p => displayCategory (AffectedProduct.category p)) (affected_products vuln)).

Definition productsCell (vuln : Vulnerability) : string :=
  JSText.join ", " (productLabels vuln).

(** [file.replace(ext, "")], the label of a month button. *)
Definition monthLabel (ext file : string) : string := JSString.replace ext "" file.

(** The identifier the index is expected to hold for a year and a month. *)
Definition identifier (year month ext : string) : string :=
  year +:+ "-" +:+ month +:+ ext.

(** [openYears[year]] as a condition: an own flag, or the truthy value a
    plain object inherits under that name. *)
Definition isOpen (openYears : gmap string bool) (year : string) : bool :=
  match openYears !! year with
  | Some flag => flag
  | None => JSArray.includes inheritedKeys year
  end.

Definition setOpenYears (x : gmap string bool) (st : State) : State :=
  mkState (data st) (selectedCategory st) (categories st) (filteredVulns st) (showSummary st)
          (cvssSort st) (patches st) x (selected st) (loading st) (console st).

(** [setOpenYears((prev) => ({ ...prev, [year]: !prev[year] }))] *)
Definition toggleYear (year : string) (st : State) : State :=
  setOpenYears (<[year := negb (isOpen (openYears st) year)]> (openYears st)) st.


Definition highest (vulns : list Vulnerability) : list Vulnerability :=
  JSArray.sort_by (scoreAfter Desc)
    (List.filter (fun v => JSNumber.geb (scoreOrZero v) 8.0) vulns).




(** The text of the lines of [SummaryView].  The decimal text of a number
    is a parameter. *)
Section SummaryLines.
Variable numberToString : float -> string.




End SummaryLines.

(** [content.split("\n")], the paragraphs of the text viewer. *)
Definition paragraphs (content : string) : list string :=
  JSString.split JSText.newline content.

(** No inherited property name is an own key. *)
Definition plainKeys (grouped : gmap string (list string)) : Prop :=
  forall key, JSArray.includes inheritedKeys key = true -> grouped !! key = None.

(** The identifier has this code unit nowhere. *)
Definition lacks (c : ascii) (s : string) : Prop := JSString.hasSeparator c s = false.

(** Records whose score, absent counting as 0, equals [k] as numbers. *)
Definition scoreIs (k : float) (v : Vulnerability) : bool := (scoreOrZero v =? k)%float.

(** * Properties *)

(** ** Order facts of binary64 numbers

    From the specification of the primitive operations: the sign of a
    rounded difference is the sign of the exact one, so a comparator
    [a - b] orders numbers as [<] does. *)

Module Binary64Facts.
Import Binary64.
Local Open Scope Z_scope.

Lemma digits2_pos_bounds p :
2 ^ (Zpos (digits2_pos p) - 1) <= Zpos p < 2 ^ Zpos (digits2_pos p).
Proof.
induction p as [p IH|p IH|]; cbn [digits2_pos].
- rewrite Pos2Z.inj_succ, Z.pow_succ_r by lia.
  replace (Z.succ (Zpos (digits2_pos p)) - 1) with (Z.succ (Zpos (digits2_pos p) - 1)) by lia.
  rewrite Z.pow_succ_r by lia. lia.
- rewrite Pos2Z.inj_succ, Z.pow_succ_r by lia.
  replace (Z.succ (Zpos (digits2_pos p)) - 1) with (Z.succ (Zpos (digits2_pos p) - 1)) by lia.
  rewrite Z.pow_succ_r by lia. lia.
- simpl. lia.
Qed.

Lemma digits2_pos_iter_xO m d :
Zpos (digits2_pos (Pos.iter xO m d)) = Zpos (digits2_pos m) + Zpos d.
Proof.
induction d as [|d IH] using Pos.peano_ind.
- simpl. lia.
- rewrite Pos.iter_succ. cbn [digits2_pos]. lia.
Qed.

Lemma iter_xO_value m d : Zpos (Pos.iter xO m d) = Zpos m * 2 ^ Zpos d.
Proof.
induction d as [|d IH] using Pos.peano_ind.
- simpl. lia.
- rewrite Pos.iter_succ, Pos2Z.inj_xO, IH, Pos2Z.inj_succ, Z.pow_succ_r by lia. lia.
Qed.

Lemma shr_1_digits mrs m :
shr_m mrs = Zpos m -> 1 < Zpos (digits2_pos m) ->
exists m', shr_m (shr_1 mrs) = Zpos m' /\ Zpos (digits2_pos m') = Zpos (digits2_pos m) - 1.
Proof.
destruct mrs as [mm r s]. cbn [shr_m]. intros -> Hd.
destruct m as [p|p|]; cbn [shr_1 shr_m digits2_pos] in *.
- exists p. split; [reflexivity | lia].
- exists p. split; [reflexivity | lia].
- lia.
Qed.

Lemma iter_shr_1_digits n : forall mrs m,
shr_m mrs = Zpos m -> Zpos n < Zpos (digits2_pos m) ->
exists m', shr_m (SpecFloat.iter_pos shr_1 n mrs) = Zpos m'
           /\ Zpos (digits2_pos m') = Zpos (digits2_pos m) - Zpos n.
Proof.
induction n as [n IH|n IH|]; intros mrs m Hm Hn; cbn [SpecFloat.iter_pos].
- destruct (shr_1_digits mrs m Hm) as (m1 & H1 & D1); [lia|].
  destruct (IH _ _ H1) as (m2 & H2 & D2); [lia|].
  destruct (IH _ _ H2) as (m3 & H3 & D3); [lia|].
  exists m3. split; [assumption | lia].
- destruct (IH _ _ Hm) as (m2 & H2 & D2); [lia|].
  destruct (IH _ _ H2) as (m3 & H3 & D3); [lia|].
  exists m3. split; [assumption | lia].
- destruct (shr_1_digits mrs m Hm) as (m1 & H1 & D1); [lia|].
  exists m1. split; [assumption | lia].
Qed.



Lemma fexp_cases e : fexp prec emax e = Z.max (e - 53) (-1074).
Proof. reflexivity. Qed.

Lemma round_nearest_even_pos m l :
exists m', round_nearest_even (Zpos m) l = Zpos m' /\ Zpos m <= Zpos m' <= Zpos m + 1.
Proof.
destruct l as [|[]]; cbn [round_nearest_even].
- exists m; lia.
- destruct (Z.even (Zpos m)); [exists m; lia | exists (m + 1)%positive; lia].
- exists m; lia.
- exists (m + 1)%positive; lia.
Qed.

Lemma binary_round_aux_signed s m e :
-1074 <= e ->
signed s (binary_round_aux prec emax s (Zpos m) e loc_Exact).
Proof.
intros He. unfold binary_round_aux.
unfold shr_fexp at 1. cbn [Zdigits2 shr_record_of_loc].
rewrite fexp_cases.
destruct (Z.max (Zpos (digits2_pos m) + e - 53) (-1074) - e) as [|n|n] eqn:En;
  cbn [shr].
1,3: cbn [shr_m loc_of_shr_record round_nearest_even];
     unfold shr_fexp; cbn [Zdigits2 shr_record_of_loc]; rewrite fexp_cases, En; cbn [shr shr_m];
     destruct (e <=? emax - prec); [right; eauto | left; reflexivity].
destruct (iter_shr_1_digits n {| shr_m := Zpos m; shr_r := false; shr_s := false |} m eq_refl)
  as (m1 & H1 & D1); [lia|].
rewrite H1.
destruct (round_nearest_even_pos m1 (loc_of_shr_record
    (SpecFloat.iter_pos shr_1 n {| shr_m := Zpos m; shr_r := false; shr_s := false |})))
  as (m2 & -> & B2).
unfold shr_fexp. cbn [Zdigits2 shr_record_of_loc]. rewrite fexp_cases.
pose proof (digits2_pos_bounds m1) as B1.
pose proof (digits2_pos_bounds m2) as B2'.
assert (D1' : Zpos (digits2_pos m1) = 53) by lia.
rewrite D1' in B1.
assert (D2 : Zpos (digits2_pos m2) = 53 \/ Zpos (digits2_pos m2) = 54).
{ assert (52 < Zpos (digits2_pos m2)).
  { apply (Z.pow_lt_mono_r_iff 2); lia. }
  assert (Zpos (digits2_pos m2) - 1 < 54).
  { apply (Z.pow_lt_mono_r_iff 2); [lia|lia|].
    change (2 ^ 54) with (2 * 2 ^ 53). change (53 - 1) with 52 in B1. lia. }
  lia. }
destruct D2 as [D2|D2]; rewrite D2.
- replace (Z.max (53 + (e + Zpos n) - 53) (-1074) - (e + Zpos n)) with 0 by lia.
  cbn [shr shr_m].
  destruct (e + Zpos n <=? emax - prec); [right; eauto | left; reflexivity].
- replace (Z.max (54 + (e + Zpos n) - 53) (-1074) - (e + Zpos n)) with 1 by lia.
  cbn [shr SpecFloat.iter_pos].
  destruct (shr_1_digits {| shr_m := Zpos m2; shr_r := false; shr_s := false |} m2 eq_refl)
    as (m3 & -> & _); [lia|].
  destruct (e + Zpos n + 1 <=? emax - prec); [right; eauto | left; reflexivity].
Qed.

Lemma binary_normalize_positive D e :
-1074 <= e ->
SFltb (S754_zero false) (binary_normalize prec emax D e false) = (0 <? D).
Proof.
intros He. destruct D as [|m|m]; cbn [binary_normalize]; [reflexivity| |].
- unfold binary_round.
  destruct (shl_align m e (fexp prec emax (Zpos (digits2_pos m) + e))) as [mz ez] eqn:Es.
  assert (-1074 <= ez).
  { unfold shl_align in Es. rewrite fexp_cases in Es.
    destruct (Z.max (Zpos (digits2_pos m) + e - 53) (-1074) - e);
      injection Es as _ <-; lia. }
  destruct (binary_round_aux_signed false mz ez) as [->|(m' & e' & ->)]; trivial.
- unfold binary_round.
  destruct (shl_align m e (fexp prec emax (Zpos (digits2_pos m) + e))) as [mz ez] eqn:Es.
  assert (-1074 <= ez).
  { unfold shl_align in Es. rewrite fexp_cases in Es.
    destruct (Z.max (Zpos (digits2_pos m) + e - 53) (-1074) - e);
      injection Es as _ <-; lia. }
  destruct (binary_round_aux_signed true mz ez) as [->|(m' & e' & ->)]; trivial.
Qed.

Lemma bounded_inv m e :
bounded prec emax m e = true ->
-1074 <= e /\ Zpos (digits2_pos m) <= 53 /\ (-1074 < e -> Zpos (digits2_pos m) = 53).
Proof.
unfold bounded, canonical_mantissa. rewrite fexp_cases.
intros H. apply andb_prop in H as [H _]. apply Z.eqb_eq in H. lia.
Qed.

Lemma shl_align_value m e e' :
e' <= e -> Zpos (fst (shl_align m e e')) = Zpos m * 2 ^ (e - e').
Proof.
intros H. unfold shl_align.
destruct (e' - e) as [|d|d] eqn:E; cbn [fst].
- replace (e - e') with 0 by lia. simpl. lia.
- lia.
- rewrite iter_xO_value. f_equal. f_equal. lia.
Qed.

(** The aligned mantissas of two valid numbers compare as the exponents,
  then the mantissas. *)
Lemma aligned_lt mx ex my ey :
bounded prec emax mx ex = true -> bounded prec emax my ey = true ->
ex < ey ->
Zpos mx < Zpos my * 2 ^ (ey - ex).
Proof.
intros Hx Hy Hlt.
apply bounded_inv in Hx as (Ex & Dx & _).
apply bounded_inv in Hy as (Ey & _ & Dy).
pose proof (digits2_pos_bounds mx) as Bx.
pose proof (digits2_pos_bounds my) as By.
rewrite Dy in By by lia. change (53 - 1) with 52 in By.
assert (Zpos mx < 2 ^ 53).
{ eapply Z.lt_le_trans; [apply Bx|]. apply Z.pow_le_mono_r; lia. }
assert (2 ^ 1 <= 2 ^ (ey - ex)) by (apply Z.pow_le_mono_r; lia).
change (2 ^ 53) with (2 ^ 52 * 2 ^ 1) in H. nia.
Qed.

Lemma cond_Zopp_sub_positive (sx sy : bool) (X Y : Z) (c : comparison) :
0 < X -> 0 < Y -> CompareSpec (Y = X) (Y < X) (X < Y) c ->
(0 <? cond_Zopp sx X - cond_Zopp sy Y) =
match (match sy, sx with
       | true, false => Lt
       | false, true => Gt
       | false, false => c
       | true, true => CompOpp c
       end) with
| Lt => true
| _ => false
end.
Proof.
intros HX HY Hc. unfold cond_Zopp.
change IntDef.Z.sub with Z.sub; change IntDef.Z.opp with Z.opp.
destruct Hc, sx, sy; cbn [CompOpp]; lia.
Qed.

Lemma SFsub_positive x y :
valid_binary x = true -> valid_binary y = true -> not_nan x -> not_nan y ->
SFltb (S754_zero false) (SF64sub x y) = SFltb y x.
Proof.
intros Vx Vy Nx Ny.
destruct x as [sx|sx| |sx mx ex], y as [sy|sy| |sy my ey];
  try (exfalso; now (apply Nx || apply Ny));
  try (destruct sx; reflexivity);
  try (destruct sy; reflexivity);
  try (destruct sx, sy; reflexivity).
cbn [valid_binary] in Vx, Vy.
unfold SF64sub, SFsub.
pose proof (bounded_inv _ _ Vx) as (Ex & _).
pose proof (bounded_inv _ _ Vy) as (Ey & _).
rewrite binary_normalize_positive by lia.
rewrite !shl_align_value by lia.
unfold SFltb, SFcompare.
assert (PX : 0 < Z.pos mx * 2 ^ (ex - Z.min ex ey)).
{ apply Z.mul_pos_pos; [lia|]. apply Z.pow_pos_nonneg; lia. }
assert (PY : 0 < Z.pos my * 2 ^ (ey - Z.min ex ey)).
{ apply Z.mul_pos_pos; [lia|]. apply Z.pow_pos_nonneg; lia. }
rewrite (cond_Zopp_sub_positive sx sy _ _
           (match ey ?= ex with Eq => Pos.compare_cont Eq my mx | Lt => Lt | Gt => Gt end)
           PX PY).
- destruct sy, sx; try reflexivity.
  destruct (ey ?= ex); reflexivity.
- destruct (Z.compare_spec ey ex) as [E|E|E].
  + subst ey. rewrite Z.min_id, Z.sub_diag. cbn [Z.pow]. rewrite !Z.mul_1_r.
    rewrite Pos.compare_cont_spec. cbn [Pos.switch_Eq].
    rewrite Pos2Z.inj_compare.
    destruct (Z.compare_spec (Z.pos my) (Z.pos mx)); constructor; lia.
  + pose proof (aligned_lt _ _ _ _ Vy Vx E).
    rewrite Z.min_r by lia. rewrite Z.sub_diag. cbn [Z.pow]. rewrite Z.mul_1_r.
    constructor. lia.
  + pose proof (aligned_lt _ _ _ _ Vx Vy E).
    rewrite Z.min_l by lia. rewrite Z.sub_diag. cbn [Z.pow]. rewrite Z.mul_1_r.
    constructor. lia.
Qed.

Lemma SFcompare_antisym x y :
not_nan x -> not_nan y ->
SFcompare x y = option_map CompOpp (SFcompare y x).
Proof.
intros Nx Ny.
destruct x as [sx|sx| |sx mx ex], y as [sy|sy| |sy my ey];
  try (exfalso; now (apply Nx || apply Ny));
  try (destruct sx; reflexivity);
  try (destruct sy; reflexivity);
  try (destruct sx, sy; reflexivity).
destruct sx, sy; cbn [SFcompare option_map]; try reflexivity;
  rewrite (Z.compare_antisym ey ex); destruct (ey ?= ex); cbn [CompOpp];
  try reflexivity; rewrite (Pos.compare_cont_antisym my mx Eq); reflexivity.
Qed.

Lemma SFcompare_defined x y :
not_nan x -> not_nan y -> exists c, SFcompare x y = Some c.
Proof.
intros Nx Ny.
destruct x as [sx|sx| |sx mx ex], y as [sy|sy| |sy my ey];
  try (exfalso; now (apply Nx || apply Ny)); cbn [SFcompare]; eauto.
Qed.

Local Open Scope float_scope.

Lemma is_nan_false x : JSNumber.is_nan x = false -> not_nan (Prim2SF x).
Proof.
unfold JSNumber.is_nan. rewrite FloatAxioms.eqb_spec. intros H E. rewrite E in H. discriminate.
Qed.

(** [x - y > 0] exactly when [y < x]. *)
Lemma sub_positive x y :
JSNumber.is_nan x = false -> JSNumber.is_nan y = false -> (0 <? x - y) = (y <? x).
Proof.
intros Nx Ny. rewrite !FloatAxioms.ltb_spec, FloatAxioms.sub_spec.
change (Prim2SF 0) with (S754_zero false).
apply SFsub_positive; auto using Prim2SF_valid, is_nan_false.
Qed.

Lemma ltb_leb x y : (x <? y) = true -> (x <=? y) = true.
Proof.
rewrite FloatAxioms.ltb_spec, FloatAxioms.leb_spec. unfold SFltb, SFleb.
now destruct (SFcompare _ _) as [[]|].
Qed.

Lemma not_ltb_leb x y :
JSNumber.is_nan x = false -> JSNumber.is_nan y = false -> (y <? x) = false -> (x <=? y) = true.
Proof.
intros Nx Ny. rewrite FloatAxioms.ltb_spec, FloatAxioms.leb_spec. unfold SFltb, SFleb.
rewrite (SFcompare_antisym (Prim2SF x) (Prim2SF y)) by auto using is_nan_false.
destruct (SFcompare_defined (Prim2SF y) (Prim2SF x)) as [c ->]; auto using is_nan_false.
now destruct c.
Qed.

Lemma nine_le_seven_le s : (9 <=? s) = true -> (7 <=? s) = true.
Proof.
rewrite !FloatAxioms.leb_spec.
change (Prim2SF 9) with (S754_finite false 5066549580791808 (-49)).
change (Prim2SF 7) with (S754_finite false 7881299347898368 (-50)).
destruct (Prim2SF s) as [[]|[]| |[] m e]; try (intros; reflexivity || discriminate).
unfold SFleb, SFcompare.
destruct (Z.compare_spec (-49) e); destruct (Z.compare_spec (-50) e); try lia; try discriminate; trivial.
Qed.

End Binary64Facts.

(** ** Completions *)

Lemma bind_Normal_inv {A B} (c : completion A) (f : A -> completion B) (b : B) :
  c ≫= f = Normal b -> exists a, c = Normal a /\ f a = Normal b.
Proof. destruct c as [a|e]; [exists a; split; trivial | discriminate]. Qed.

Lemma bind_completes {A B} (c : completion A) (f : A -> completion B) :
  completes c -> (forall a, c = Normal a -> completes (f a)) -> completes (c ≫= f).
Proof. intros [a ->] Hf. apply (Hf a eq_refl). Qed.

(** ** The model of [Array.prototype.sort] *)

Section SortFacts.
Context {A : Type}.
Variable after : A -> A -> bool.

Lemma insert_by_Permutation x l : Permutation (JSArray.insert_by after x l) (x :: l).
Proof.
  induction l as [|y l IH]; simpl; [reflexivity|].
  destruct (after x y); [|reflexivity].
  rewrite IH. apply perm_swap.
Qed.

Lemma sort_by_Permutation l : Permutation (JSArray.sort_by after l) l.
Proof.
  induction l as [|x l IH]; simpl; [constructor|].
  rewrite insert_by_Permutation. now constructor.
Qed.

Lemma sort_by_length l : length (JSArray.sort_by after l) = length l.
Proof. apply Permutation_length, sort_by_Permutation. Qed.

(** Ordering: among elements of [P], [R] holds whichever way the
    comparator answers. *)
Section Ordered.
Variable P : A -> Prop.
Variable R : A -> A -> Prop.
Hypothesis after_true : forall x y, P x -> P y -> after x y = true -> R y x.
Hypothesis after_false : forall x y, P x -> P y -> after x y = false -> R x y.

Lemma insert_by_Sorted x l :
  P x -> Forall P l -> Sorted R l -> Sorted R (JSArray.insert_by after x l).
Proof using after_true after_false.
  intros Px Pl Hs. induction l as [|y l IH]; simpl.
  - repeat constructor.
  - inversion Pl as [|? ? Py Pl']; subst.
    inversion Hs as [|? ? Hs' Hhd]; subst.
    destruct (after x y) eqn:E.
    + constructor; [now apply IH|].
      destruct l as [|z l]; simpl.
      * constructor. now apply after_true.
      * destruct (after x z); constructor.
        -- now inversion Hhd.
        -- now apply after_true.
    + constructor; [assumption|]. constructor. now apply after_false.
Qed.

Lemma sort_by_Sorted l : Forall P l -> Sorted R (JSArray.sort_by after l).
Proof using after_true after_false.
  induction l as [|x l IH]; simpl; intros Pl; [constructor|].
  inversion Pl; subst. apply insert_by_Sorted; auto.
  eapply Permutation_Forall; [|eassumption].
  symmetry. apply sort_by_Permutation.
Qed.
End Ordered.

(** Stability: elements the comparator never separates keep their
    order. *)
Section Stable.
Variable p : A -> bool.
Hypothesis ties : forall x y, p x = true -> p y = true -> after x y = false.

Lemma insert_by_filter x l :
  List.filter p (JSArray.insert_by after x l) = List.filter p (x :: l).
Proof using ties.
  induction l as [|y l IH]; [reflexivity|].
  cbn [JSArray.insert_by]. destruct (after x y) eqn:E; [|reflexivity].
  cbn [List.filter] in *. rewrite IH.
  destruct (p x) eqn:Px, (p y) eqn:Py; try reflexivity.
  rewrite (ties x y Px Py) in E. discriminate.
Qed.

Lemma sort_by_stable l :
  List.filter p (JSArray.sort_by after l) = List.filter p l.
Proof using ties.
  induction l as [|x l IH]; [reflexivity|].
  cbn [JSArray.sort_by]. rewrite insert_by_filter.
  cbn [List.filter]. now rewrite IH.
Qed.
End Stable.
End SortFacts.

(** The order depends on the keys alone. *)
Lemma sort_by_map {A B} (key : A -> B) (afterA : A -> A -> bool) (afterB : B -> B -> bool) l :
  (forall x y, afterA x y = afterB (key x) (key y)) ->
  map key (JSArray.sort_by afterA l) = JSArray.sort_by afterB (map key l).
Proof.
  intros Hk. induction l as [|x l IH]; [reflexivity|].
  cbn [JSArray.sort_by map]. rewrite <- IH.
  generalize (JSArray.sort_by afterA l). intros s.
  induction s as [|y s IHs]; [reflexivity|].
  cbn [JSArray.insert_by map]. rewrite <- Hk.
  destruct (afterA x y); cbn [map]; [now rewrite IHs | reflexivity].
Qed.

Section SortThrows.
Context {A : Type}.
Variable after : A -> A -> completion bool.
Variable pure : A -> A -> bool.
Variable Q : A -> Prop.
Hypothesis after_pure : forall x y b, after x y = Normal b -> b = pure x y.
Hypothesis after_defined : forall x y b, after x y = Normal b -> Q x /\ Q y.
Hypothesis defined_after : forall x y, Q x -> Q y -> completes (after x y).

Lemma insert_Normal x l s :
  JSArray.insert after x l = Normal s -> s = JSArray.insert_by pure x l.
Proof using after_pure.
  revert s. induction l as [|y l IH]; intros s; cbn [JSArray.insert JSArray.insert_by].
  - now intros [= <-].
  - intros H. apply bind_Normal_inv in H as (b & Hb & H).
    rewrite <- (after_pure _ _ _ Hb). destruct b.
    + apply bind_Normal_inv in H as (r & Hr & [= <-]). now rewrite (IH _ Hr).
    + now injection H as <-.
Qed.

Lemma sort_Normal l s :
  JSArray.sort after l = Normal s -> s = JSArray.sort_by pure l.
Proof using after_pure.
  revert s. induction l as [|x l IH]; intros s; cbn [JSArray.sort JSArray.sort_by].
  - now intros [= <-].
  - intros H. apply bind_Normal_inv in H as (s' & Hs' & H).
    rewrite <- (IH _ Hs'). now apply insert_Normal.
Qed.

(** A successful sort of two or more elements has compared each one. *)
Lemma sort_Normal_defined l s :
  JSArray.sort after l = Normal s -> (2 <= length l)%nat -> Forall Q l.
Proof using after_pure after_defined.
  revert s. induction l as [|x l IH]; intros s H Hlen; [constructor|].
  cbn [JSArray.sort] in H. apply bind_Normal_inv in H as (s' & Hs' & H).
  pose proof (sort_Normal _ _ Hs') as ->.
  destruct l as [|y l]; [simpl in Hlen; lia|].
  pose proof (sort_by_length pure (y :: l)) as Hl.
  destruct (JSArray.sort_by pure (y :: l)) as [|z s'] eqn:Es; [discriminate|].
  cbn [JSArray.insert] in H. apply bind_Normal_inv in H as (b & Hb & _).
  destruct (after_defined _ _ _ Hb) as [Qx Qz].
  constructor; [assumption|].
  destruct l as [|y' l].
  - simpl in Es. injection Es as Hy _. subst z. now repeat constructor.
  - apply (IH _ Hs'). simpl. lia.
Qed.

Lemma insert_completes x l :
  Q x -> Forall Q l -> completes (JSArray.insert after x l).
Proof using defined_after.
  intros Qx. induction 1 as [|y l Qy Ql IH]; cbn [JSArray.insert]; [now eexists|].
  apply bind_completes; [now apply defined_after|].
  intros [] _; [|now eexists].
  apply bind_completes; [assumption | now eexists].
Qed.

Lemma sort_completes l : Forall Q l -> completes (JSArray.sort after l).
Proof using after_pure defined_after.
  induction 1 as [|x l Qx Ql IH]; cbn [JSArray.sort]; [now eexists|].
  apply bind_completes; [assumption|].
  intros s Hs. apply insert_completes; [assumption|].
  rewrite (sort_Normal _ _ Hs).
  eapply Permutation_Forall; [|eassumption].
  symmetry. apply sort_by_Permutation.
Qed.
End SortThrows.

Lemma sort_total {A} (after : A -> A -> bool) l :
  JSArray.sort (fun x y => Normal (after x y)) l = Normal (JSArray.sort_by after l).
Proof.
  destruct (sort_completes (fun x y => Normal (after x y)) after (fun _ => True)) with (l := l)
    as [s Hs].
  - now intros x y b [= <-].
  - intros; now eexists.
  - now apply Forall_forall.
  - rewrite Hs. f_equal. eapply sort_Normal; [|exact Hs]. now intros x y b [= <-].
Qed.

(** ** Severity classifier *)

Lemma getCvssSeverity_rule score : severityRule score (getCvssSeverity score).
Proof.
  destruct score as [s|]; cbn [getCvssSeverity]; [|constructor].
  destruct (s =? 0)%float eqn:E0; [now constructor|].
  destruct (s <=? 3.9)%float eqn:E1; [now constructor|].
  destruct (s <=? 6.9)%float eqn:E2; [now constructor|].
  destruct (s <=? 8.9)%float eqn:E3; now constructor.
Qed.

Lemma severityRule_functional score l1 l2 :
  severityRule score l1 -> severityRule score l2 -> l1 = l2.
Proof.
  intros H1 H2. destruct H1; inversion H2; subst; congruence.
Qed.

(** C2: the classifier is total, returns one of the five labels, and the
    label is the one the ordered rule gives: absent or 0 is None, then
    at most 3.9 is Low, at most 6.9 is Medium, at most 8.9 is High, and
    anything else is Critical; the eight boundary values classify as
    listed. *)
Theorem getCvssSeverity_classifies :
  (forall score, In (getCvssSeverity score) SEVERITY_LABELS)
  /\ (forall score label, getCvssSeverity score = label <-> severityRule score label)
  /\ getCvssSeverity None = "None"
  /\ getCvssSeverity (Some 0%float) = "None"
  /\ getCvssSeverity (Some 3.9%float) = "Low"
  /\ getCvssSeverity (Some 4.0%float) = "Medium"
  /\ getCvssSeverity (Some 6.9%float) = "Medium"
  /\ getCvssSeverity (Some 7.0%float) = "High"
  /\ getCvssSeverity (Some 8.9%float) = "High"
  /\ getCvssSeverity (Some 9.0%float) = "Critical".
Proof.
  split; [|split].
  - intros score. destruct (getCvssSeverity_rule score); simpl; tauto.
  - intros score label. split.
    + intros <-. apply getCvssSeverity_rule.
    + intros H. eapply severityRule_functional; [apply getCvssSeverity_rule | exact H].
  - repeat split; reflexivity.
Qed.

(** ** Record filter *)

Lemma inCategory_affects selectedCategory vuln :
  inCategory selectedCategory vuln = true <-> affects selectedCategory vuln.
Proof.
  unfold inCategory, affects. rewrite existsb_exists.
  split; intros (prod & Hin & H); exists prod; split; trivial; now apply String.eqb_eq.
Qed.

Lemma filter_ext_iff {A} (f g : A -> bool) l :
  (forall x, f x = true <-> g x = true) -> List.filter f l = List.filter g l.
Proof.
  intros H. apply List.filter_ext. intros x. specialize (H x).
  destruct (f x), (g x); intuition congruence.
Qed.

Lemma filter_sublist {A} (f : A -> bool) l : sublist (List.filter f l) l.
Proof.
  induction l as [|x l IH]; simpl; [constructor|].
  destruct (f x); now constructor.
Qed.

Lemma filter_none {A} (f : A -> bool) l :
  (forall x, In x l -> f x = false) -> List.filter f l = [].
Proof.
  induction l as [|x l IH]; simpl; intros H; [reflexivity|].
  rewrite (H x) by now left. apply IH. intros y Hy. apply H. now right.
Qed.

Lemma filterByCategory_selected selectedCategory vulns :
  selectedCategory <> "" ->
  filterByCategory selectedCategory vulns = List.filter (inCategory selectedCategory) vulns.
Proof.
  intros H. unfold filterByCategory.
  destruct (String.eqb_spec selectedCategory ""); [contradiction | reflexivity].
Qed.

(** C4: with a category selected and no sort direction, the filter keeps
    exactly the records that have an affected product whose category is
    the selected string itself (the comparison is exact: neither another
    case nor the displayed label matches), in their original relative
    order, and the empty sequence when no record matches. *)
Theorem filterByCategory_retains (selectedCategory : string) (vulns : list Vulnerability) :
  selectedCategory <> "" ->
  let kept := filterAndSort selectedCategory NoSort vulns in
  (forall v, In v kept <-> In v vulns /\ affects selectedCategory v)
  /\ (forall decides : Vulnerability -> bool,
        (forall v, decides v = true <-> affects selectedCategory v) ->
        kept = List.filter decides vulns)
  /\ sublist kept vulns
  /\ ((forall v, In v vulns -> ~ affects selectedCategory v) -> kept = [])
  /\ filterAndSort "Mariner" NoSort [inOneCategory "Mariner"] = [inOneCategory "Mariner"]
  /\ filterAndSort "mariner" NoSort [inOneCategory "Mariner"] = []
  /\ filterAndSort (displayCategory "Mariner") NoSort [inOneCategory "Mariner"] = [].
Proof.
  intros Hsel kept. subst kept. unfold filterAndSort. cbn [sortByScore].
  rewrite (filterByCategory_selected _ _ Hsel).
  split; [|split; [|split; [|split]]].
  - intros v. now rewrite filter_In, inCategory_affects.
  - intros decides Hd. apply filter_ext_iff. intros v.
    rewrite Hd. apply inCategory_affects.
  - apply filter_sublist.
  - intros Hnone. apply filter_none. intros v Hv.
    destruct (inCategory selectedCategory v) eqn:E; [|reflexivity].
    exfalso. apply (Hnone v Hv). now apply inCategory_affects.
  - repeat split; reflexivity.
Qed.

Lemma filterByCategory_retains_witness :
  let vulns := [inOneCategory "Windows"; inOneCategory "Office"; inOneCategory "Windows"] in
  filterAndSort "Windows" NoSort vulns = [inOneCategory "Windows"; inOneCategory "Windows"]
  /\ sublist (filterAndSort "Windows" NoSort vulns) vulns.
Proof.
  intros vulns. split; [reflexivity|].
  apply (filterByCategory_retains "Windows" vulns). discriminate.
Defined.

(** ** Summary aggregator *)



Lemma count_scores threshold vulns :
  length (List.filter (fun s => JSNumber.geb s threshold) (nonNull (map cvss_score vulns)))
  = length (List.filter (scoreAtLeast threshold) vulns).
Proof.
  unfold scoreAtLeast, JSNumber.geb. induction vulns as [|v vulns IH]; [reflexivity|].
  cbn [map nonNull List.filter]. destruct (cvss_score v) as [s|]; [|exact IH].
  cbn [List.filter]. destruct (threshold <=? s)%float; simpl; now rewrite IH.
Qed.




Lemma includes_In l x : JSArray.includes l x = true <-> In x l.
Proof.
  unfold JSArray.includes. rewrite existsb_exists. split.
  - intros (y & Hy & E). apply String.eqb_eq in E. now subst.
  - intros H. exists x. split; [assumption | apply String.eqb_refl].
Qed.

Lemma filter_length_le {A} (f g : A -> bool) l :
  (forall x, f x = true -> g x = true) ->
  length (List.filter f l) <= length (List.filter g l).
Proof.
  intros H. induction l as [|x l IH]; simpl; [lia|].
  destruct (f x) eqn:E.
  - rewrite (H x E). simpl. lia.
  - destruct (g x); simpl; lia.
Qed.

Lemma scoreAtLeast_9_7 v : scoreAtLeast 9 v = true -> scoreAtLeast 7 v = true.
Proof.
  unfold scoreAtLeast. destruct (cvss_score v); [|discriminate].
  apply Binary64Facts.nine_le_seven_le.
Qed.

Lemma VULN_TYPES_NoDup : NoDup VULN_TYPES.
Proof. refine (bool_decide_unpack _ _). vm_compute. exact I. Qed.

Lemma byType_lookup vulns type :
  Stats.byType (getSummaryStats vulns) !! type =
  if JSArray.includes VULN_TYPES type
  then Some (length (List.filter (fun v => JSArray.includes (threat_types v) type) vulns))
  else None.
Proof.
  cbn [getSummaryStats Stats.byType].
  set (count := fun type : string =>
         length (List.filter (fun v => JSArray.includes (threat_types v) type) vulns)).
  change ((list_to_map (map (fun type => (type, count type)) VULN_TYPES) : gmap string nat)
            !! type
          = if JSArray.includes VULN_TYPES type then Some (count type) else None).
  assert (Hfst : (map (fun type => (type, count type)) VULN_TYPES).*1 = VULN_TYPES).
  { rewrite <- list_fmap_compose. apply list_fmap_id. }
  destruct (JSArray.includes VULN_TYPES type) eqn:E.
  - apply elem_of_list_to_map_1.
    + rewrite Hfst. apply VULN_TYPES_NoDup.
    + apply includes_In in E. apply list_elem_of_In.
      apply (in_map (fun type => (type, count type))), E.
  - apply not_elem_of_list_to_map_1. rewrite Hfst, list_elem_of_In.
    intros H. apply includes_In in H. congruence.
Qed.

(** C1: [high] counts the records whose score is present and at least 7.0,
    [critical] those at least 9.0; a record at least 9.0 is in both
    counts; for each of the seven threat types the per-type count is the
    number of records that tag it, and there is no other key; and two
    records scored 9.5 and 7.0 give high 2, critical 1 and average
    8.25. *)
Theorem getSummaryStats_counts (vulns : list Vulnerability) :
  Stats.high (getSummaryStats vulns) = length (List.filter (scoreAtLeast 7.0) vulns)
  /\ Stats.critical (getSummaryStats vulns) = length (List.filter (scoreAtLeast 9.0) vulns)
  /\ (forall v, scoreAtLeast 9.0 v = true -> scoreAtLeast 7.0 v = true)
  /\ Stats.critical (getSummaryStats vulns) <= Stats.high (getSummaryStats vulns)
  /\ length VULN_TYPES = 7
  /\ (forall type (decides : Vulnerability -> bool),
        In type VULN_TYPES ->
        (forall v, decides v = true <-> tags type v) ->
        Stats.byType (getSummaryStats vulns) !! type
        = Some (length (List.filter decides vulns)))
  /\ (forall type, ~ In type VULN_TYPES -> Stats.byType (getSummaryStats vulns) !! type = None)
  /\ (forall a b, cvss_score a = Some 9.5%float -> cvss_score b = Some 7.0%float ->
        Stats.high (getSummaryStats [a; b]) = 2
        /\ Stats.critical (getSummaryStats [a; b]) = 1
        /\ Stats.avg (getSummaryStats [a; b]) = 8.25%float).
Proof.
  assert (Hhigh : forall t, length (List.filter (fun s => JSNumber.geb s t)
                                      (nonNull (map cvss_score vulns)))
                            = length (List.filter (scoreAtLeast t) vulns))
    by (intros; apply count_scores).
  split; [apply Hhigh|]. split; [apply Hhigh|]. split; [exact scoreAtLeast_9_7|].
  split.
  { cbn [getSummaryStats Stats.high Stats.critical]. rewrite !Hhigh.
    apply filter_length_le, scoreAtLeast_9_7. }
  split; [reflexivity|]. split; [|split].
  - intros type decides Hin Hd. rewrite byType_lookup.
    apply includes_In in Hin. rewrite Hin. do 2 f_equal.
    apply filter_ext_iff. intros v. rewrite Hd. apply includes_In.
  - intros type Hnot. rewrite byType_lookup.
    destruct (JSArray.includes VULN_TYPES type) eqn:E; [|reflexivity].
    apply includes_In in E. contradiction.
  - intros a b Ha Hb. cbn [getSummaryStats Stats.high Stats.critical Stats.avg map].
    rewrite Ha, Hb. repeat split; reflexivity.
Qed.

Lemma getSummaryStats_counts_witness :
  Stats.high (getSummaryStats [scored (Some 9.5%float); scored (Some 7.0%float)]) = 2
  /\ Stats.critical (getSummaryStats [scored (Some 9.5%float); scored (Some 7.0%float)]) = 1
  /\ Stats.avg (getSummaryStats [scored (Some 9.5%float); scored (Some 7.0%float)]) = 8.25%float.
Proof.
  apply (getSummaryStats_counts []); reflexivity.
Defined.

(** ** Score sort *)

Lemma scoreAfter_Asc a b :
  numericScore a -> numericScore b ->
  scoreAfter Asc a b = (scoreOrZero b <? scoreOrZero a)%float.
Proof. intros Ha Hb. now apply Binary64Facts.sub_positive. Qed.

Lemma scoreAfter_Desc a b :
  numericScore a -> numericScore b ->
  scoreAfter Desc a b = (scoreOrZero a <? scoreOrZero b)%float.
Proof. intros Ha Hb. now apply Binary64Facts.sub_positive. Qed.

Lemma sortByScore_Asc_Sorted vulns :
  Forall numericScore vulns -> Sorted scoreLe (sortByScore Asc vulns).
Proof.
  apply sort_by_Sorted; intros x y Hx Hy; rewrite scoreAfter_Asc by assumption; intros H.
  - now apply Binary64Facts.ltb_leb.
  - now apply Binary64Facts.not_ltb_leb.
Qed.

Lemma sortByScore_Desc_Sorted vulns :
  Forall numericScore vulns -> Sorted scoreGe (sortByScore Desc vulns).
Proof.
  apply sort_by_Sorted; intros x y Hx Hy; rewrite scoreAfter_Desc by assumption; intros H.
  - now apply Binary64Facts.ltb_leb.
  - now apply Binary64Facts.not_ltb_leb.
Qed.

Lemma sortByScore_Permutation cvssSort vulns :
  Permutation (sortByScore cvssSort vulns) vulns.
Proof. destruct cvssSort; [reflexivity | apply sort_by_Permutation ..]. Qed.

Lemma filterByCategory_Forall (P : Vulnerability -> Prop) selectedCategory vulns :
  Forall P vulns -> Forall P (filterByCategory selectedCategory vulns).
Proof.
  unfold filterByCategory. destruct (String.eqb _ _); [trivial|].
  rewrite !List.Forall_forall. intros H v Hv. apply H. now apply filter_In in Hv as [Hv _].
Qed.

Lemma filterEffect_store σ src arr selectedCategory cvssSort :
  σ !! src = Some arr -> cvssSort <> NoSort ->
  exists σ' out,
    Store.filterEffect σ src selectedCategory cvssSort = Some (σ', out)
    /\ length σ <= out
    /\ σ' !! out = Some (filterAndSort selectedCategory cvssSort arr)
    /\ forall l, l < length σ -> σ' !! l = σ !! l.
Proof.
  intros Hsrc Hsort. unfold Store.filterEffect, filterAndSort, filterByCategory.
  rewrite Hsrc. cbn [mbind option_bind].
  assert (Hs : sortByScore cvssSort = JSArray.sort_by (scoreAfter cvssSort))
    by now destruct cvssSort.
  rewrite Hs.
  destruct (String.eqb selectedCategory "").
  - exists (<[length σ := JSArray.sort_by (scoreAfter cvssSort) arr]> (σ ++ [arr])), (length σ).
    split; [|split; [|split]].
    + destruct cvssSort; [contradiction| |]; now rewrite Hsrc.
    + lia.
    + apply list_lookup_insert_eq. rewrite length_app. simpl. lia.
    + intros l Hl. rewrite list_lookup_insert_ne by lia. now apply lookup_app_l.
  - set (kept := List.filter (inCategory selectedCategory) arr).
    exists (<[S (length σ) := JSArray.sort_by (scoreAfter cvssSort) kept]>
              ((σ ++ [kept]) ++ [kept])), (S (length σ)).
    assert (Hkept : (σ ++ [kept]) !! length σ = Some kept) by apply list_lookup_middle, eq_refl.
    split; [|split; [|split]].
    + unfold Store.alloc. destruct cvssSort; [contradiction| |];
        rewrite Hkept; cbn [mbind option_bind]; rewrite length_app, Nat.add_1_r; reflexivity.
    + lia.
    + apply list_lookup_insert_eq. rewrite !length_app. simpl. lia.
    + intros l Hl. rewrite list_lookup_insert_ne by lia.
      rewrite lookup_app_l by (rewrite length_app; simpl; lia). now apply lookup_app_l.
Qed.

(** C6: for either direction the sorted output is a permutation of the
    filtered input, so descending and ascending outputs are permutations
    of each other; the output is ordered by score with an absent score
    taken as 0, the order depending on these numbers alone, and a record
    without a score is still a record without a score, classified None;
    and the sort works on a fresh copy: the array it returns is a new one
    and every array of the store before the effect, the source included,
    is unchanged. *)
Theorem sortByScore_permutes (selectedCategory : string) (cvssSort : SortOrder)
  (vulns : list Vulnerability) :
  Permutation (filterAndSort selectedCategory cvssSort vulns)
              (filterByCategory selectedCategory vulns)
  /\ Permutation (filterAndSort selectedCategory Desc vulns)
                 (filterAndSort selectedCategory Asc vulns)
  /\ (Forall numericScore vulns ->
      Sorted scoreLe (filterAndSort selectedCategory Asc vulns)
      /\ Sorted scoreGe (filterAndSort selectedCategory Desc vulns))
  /\ map scoreOrZero (filterAndSort selectedCategory Asc vulns)
     = JSArray.sort_by (fun x y => JSNumber.positive (x - y)%float)
                       (map scoreOrZero (filterByCategory selectedCategory vulns))
  /\ map scoreOrZero (filterAndSort selectedCategory Desc vulns)
     = JSArray.sort_by (fun x y => JSNumber.positive (y - x)%float)
                       (map scoreOrZero (filterByCategory selectedCategory vulns))
  /\ (forall v, In v (filterAndSort selectedCategory cvssSort vulns) ->
        In v vulns
        /\ (cvss_score v = None ->
            scoreOrZero v = 0%float /\ getCvssSeverity (cvss_score v) = "None"))
  /\ (forall σ src,
        σ !! src = Some vulns -> cvssSort <> NoSort ->
        exists σ' out,
          Store.filterEffect σ src selectedCategory cvssSort = Some (σ', out)
          /\ out <> src
          /\ σ' !! out = Some (filterAndSort selectedCategory cvssSort vulns)
          /\ σ' !! src = Some vulns
          /\ forall l, l < length σ -> σ' !! l = σ !! l).
Proof.
  split; [apply sortByScore_Permutation|].
  split.
  { unfold filterAndSort. now rewrite !sortByScore_Permutation. }
  split.
  { intros H. split.
    - apply sortByScore_Asc_Sorted, filterByCategory_Forall, H.
    - apply sortByScore_Desc_Sorted, filterByCategory_Forall, H. }
  split; [now apply sort_by_map|]. split; [now apply sort_by_map|].
  split.
  { intros v Hv. split.
    - eapply Permutation_in in Hv; [|apply sortByScore_Permutation].
      unfold filterByCategory in Hv. destruct (String.eqb _ _); [assumption|].
      now apply filter_In in Hv as [Hv _].
    - unfold scoreOrZero. now intros ->. }
  intros σ src Hsrc Hsort.
  destruct (filterEffect_store σ src vulns selectedCategory cvssSort Hsrc Hsort)
    as (σ' & out & Heff & Hfresh & Hout & Hold).
  exists σ', out. pose proof (lookup_lt_Some _ _ _ Hsrc) as Hlt.
  repeat split; trivial; [lia|]. now rewrite Hold.
Qed.

Lemma sortByScore_permutes_witness :
  let vulns := [scored (Some 5.0%float); scored None; scored (Some 9.8%float)] in
  Sorted scoreLe (filterAndSort "" Asc vulns)
  /\ filterAndSort "" Asc vulns
     = [scored None; scored (Some 5.0%float); scored (Some 9.8%float)]
  /\ filterAndSort "" Desc vulns
     = [scored (Some 9.8%float); scored (Some 5.0%float); scored None]
  /\ exists σ' out,
       Store.filterEffect [vulns] 0 "" Desc = Some (σ', out)
       /\ out <> 0
       /\ σ' !! out = Some (filterAndSort "" Desc vulns)
       /\ σ' !! 0 = Some vulns
       /\ forall l, l < 1 -> σ' !! l = [vulns] !! l.
Proof.
  intros vulns.
  pose proof (sortByScore_permutes "" Asc vulns) as (_ & _ & Hsorted & _).
  pose proof (sortByScore_permutes "" Desc vulns) as (_ & _ & _ & _ & _ & _ & Hstore).
  split; [|split; [|split]].
  - apply Hsorted. repeat constructor.
  - reflexivity.
  - reflexivity.
  - apply (Hstore [vulns] 0); [reflexivity | discriminate].
Defined.

(** ** Strings *)

Lemma split_hasSeparator sep s :
  match JSString.split sep s with
  | [] => False
  | [seg] => JSString.hasSeparator sep s = false /\ seg = s
  | seg :: _ :: _ => JSString.hasSeparator sep s = true
  end.
Proof.
  induction s as [|c s IH]; cbn [JSString.split JSString.hasSeparator]; [easy|].
  destruct (Ascii.eqb c sep); cbn [orb].
  - now destruct (JSString.split sep s).
  - destruct (JSString.split sep s) as [|seg [|seg' rest]]; [easy| |easy].
    destruct IH as [-> ->]. easy.
Qed.

Lemma split_first sep s :
  JSString.hasSeparator sep s = true ->
  exists year rest,
    JSString.split sep s = year :: JSString.split sep rest
    /\ s = year +:+ String sep rest
    /\ JSString.hasSeparator sep year = false.
Proof.
  induction s as [|c s IH]; cbn [JSString.split JSString.hasSeparator]; [discriminate|].
  destruct (Ascii.eqb_spec c sep) as [->|Hne]; cbn [orb].
  - intros _. exists "", s. easy.
  - intros H. destruct (IH H) as (year & rest & -> & -> & Hy).
    exists (String c year), rest. repeat split.
    cbn [JSString.hasSeparator]. rewrite Hy.
    now destruct (Ascii.eqb_spec c sep).
Qed.

Lemma endsWith_suffix s suffix :
  JSString.endsWith s suffix = true <-> exists stem, s = stem +:+ suffix.
Proof.
  split.
  - induction s as [|c s IH]; cbn [JSString.endsWith]; intros H.
    + rewrite orb_false_r in H. apply String.eqb_eq in H as <-. now exists "".
    + apply orb_prop in H as [H|H].
      * apply String.eqb_eq in H as <-. now exists "".
      * destruct (IH H) as [stem ->]. now exists (String c stem).
  - intros [stem ->]. induction stem as [|c stem IH].
    + change ("" +:+ suffix) with suffix.
      destruct suffix; cbn [JSString.endsWith]; apply orb_true_iff; left;
        apply String.eqb_refl.
    + change (String c stem +:+ suffix) with (String c (stem +:+ suffix)).
      cbn [JSString.endsWith]. rewrite IH. apply orb_true_r.
Qed.

Lemma yearOf_no_separator file :
  JSString.hasSeparator "-" file = false -> yearOf file = file.
Proof.
  intros H. unfold yearOf. pose proof (split_hasSeparator "-" file) as Hs.
  destruct (JSString.split "-" file) as [|seg [|seg' rest]]; [easy| |congruence].
  now destruct Hs.
Qed.

Lemma monthOf_hasSeparator ext file :
  completes (monthOf ext file) <-> JSString.hasSeparator "-" file = true.
Proof.
  unfold monthOf. pose proof (split_hasSeparator "-" file) as Hs.
  destruct (JSString.split "-" file) as [|seg [|seg' rest]]; [easy| |].
  - destruct Hs as [-> _]. split; [intros [m Hm]|]; discriminate.
  - split; [easy | intros _; now eexists].
Qed.

(** ** Month comparator *)

Section MonthFacts.
Variable ext : string.

Lemma monthKey_monthOf file month :
  monthOf ext file = Normal month -> monthKey ext file = JSArray.indexOf MONTH_ORDER month.
Proof. unfold monthKey, monthIndex. now intros ->. Qed.

Lemma monthAfter_Normal x y b :
  monthAfter ext x y = Normal b ->
  b = monthAfterKey ext x y /\ completes (monthOf ext x) /\ completes (monthOf ext y).
Proof.
  unfold monthAfter, compareMonths, monthAfterKey. intros H.
  destruct (monthOf ext x) as [mx|] eqn:Ex; [|discriminate].
  destruct (monthOf ext y) as [my|] eqn:Ey; [|discriminate].
  injection H as <-.
  rewrite (monthKey_monthOf _ _ Ex), (monthKey_monthOf _ _ Ey).
  repeat split; now eexists.
Qed.

Lemma monthAfter_completes x y :
  completes (monthOf ext x) -> completes (monthOf ext y) -> completes (monthAfter ext x y).
Proof.
  unfold monthAfter, compareMonths. intros [mx ->] [my ->]. now eexists.
Qed.

Lemma monthLe_key x y :
  completes (monthOf ext x) -> completes (monthOf ext y) ->
  (monthKey ext x <= monthKey ext y)%Z -> monthLe ext x y.
Proof.
  unfold monthLe, monthKey, monthIndex. intros [mx ->] [my ->] H. eauto.
Qed.

Lemma sortGroup_Normal arr sorted :
  sortGroup ext arr = Normal sorted -> sorted = JSArray.sort_by (monthAfterKey ext) arr.
Proof.
  apply sort_Normal. intros x y b H. now apply monthAfter_Normal in H.
Qed.

Lemma sortGroup_Sorted arr sorted :
  sortGroup ext arr = Normal sorted -> Sorted (monthLe ext) sorted.
Proof.
  intros H. pose proof (sortGroup_Normal _ _ H) as ->.
  destruct arr as [|x [|y arr]]; [constructor | repeat constructor |].
  apply sort_by_Sorted with (P := fun file => completes (monthOf ext file)).
  - intros a b Ha Hb Hab. apply monthLe_key; trivial.
    unfold monthAfterKey in Hab. lia.
  - intros a b Ha Hb Hab. apply monthLe_key; trivial.
    unfold monthAfterKey in Hab. lia.
  - eapply sort_Normal_defined with (after := monthAfter ext) (pure := monthAfterKey ext).
    + intros a b c Hc. now apply monthAfter_Normal in Hc.
    + intros a b c Hc. now apply monthAfter_Normal in Hc.
    + exact H.
    + simpl. lia.
Qed.

Lemma sortGroup_Permutation arr sorted :
  sortGroup ext arr = Normal sorted -> Permutation sorted arr.
Proof.
  intros H. rewrite (sortGroup_Normal _ _ H). apply sort_by_Permutation.
Qed.

(** Identifiers of one month keep their index order. *)
Lemma sortGroup_stable arr sorted i :
  sortGroup ext arr = Normal sorted ->
  List.filter (fun file => Z.eqb (monthKey ext file) i) sorted
  = List.filter (fun file => Z.eqb (monthKey ext file) i) arr.
Proof.
  intros H. rewrite (sortGroup_Normal _ _ H). apply sort_by_stable.
  intros x y Hx Hy. unfold monthAfterKey. lia.
Qed.

Lemma sortGroup_completes arr :
  Forall (fun file => JSString.hasSeparator "-" file = true) arr ->
  completes (sortGroup ext arr).
Proof.
  intros H.
  apply sort_completes with (pure := monthAfterKey ext)
                            (Q := fun file => completes (monthOf ext file)).
  - intros x y b Hb. now apply monthAfter_Normal in Hb.
  - intros x y. apply monthAfter_completes.
  - eapply Forall_impl; [exact H|]. intros file. apply monthOf_hasSeparator.
Qed.

Lemma sortGroup_single file : sortGroup ext [file] = Normal [file].
Proof. reflexivity. Qed.

End MonthFacts.

(** ** Index grouper *)

Section GrouperFacts.
Variable accepts : string -> bool.
Variable ext : string.

Lemma membersOf_cons year file data :
  membersOf accepts year (file :: data) =
  if accepts file && String.eqb (yearOf file) year
  then file :: membersOf accepts year data
  else membersOf accepts year data.
Proof. reflexivity. Qed.

Lemma forEach_groupStep_lookup data : forall grouped grouped',
  forEach (groupStep accepts) grouped data = Normal grouped' ->
  forall year,
    grouped' !! year =
    match grouped !! year with
    | Some arr => Some (arr ++ membersOf accepts year data)
    | None => match membersOf accepts year data with
              | [] => None
              | members => Some members
              end
    end.
Proof.
  induction data as [|file data IH]; intros grouped grouped' H year.
  - injection H as <-. cbn [membersOf List.filter].
    destruct (grouped !! year); [now rewrite app_nil_r | reflexivity].
  - cbn [forEach] in H. apply bind_Normal_inv in H as (g1 & Hstep & H).
    rewrite (IH _ _ H year), membersOf_cons. clear IH H.
    unfold groupStep in Hstep.
    destruct (accepts file); cbn [negb andb] in *; [|now injection Hstep as <-].
    destruct (grouped !! yearOf file) as [arr|] eqn:Hold.
    + injection Hstep as <-.
      destruct (String.eqb_spec (yearOf file) year) as [<-|Hne].
      * rewrite lookup_insert_eq, Hold. now rewrite <- app_assoc.
      * now rewrite lookup_insert_ne.
    + destruct (JSArray.includes inheritedKeys (yearOf file)); [discriminate|].
      injection Hstep as <-.
      destruct (String.eqb_spec (yearOf file) year) as [<-|Hne].
      * now rewrite lookup_insert_eq, Hold.
      * now rewrite lookup_insert_ne.
Qed.

Lemma forEach_groupStep_completes data :
  (forall file, In file data -> accepts file = true ->
                JSArray.includes inheritedKeys (yearOf file) = false) ->
  forall grouped, completes (forEach (groupStep accepts) grouped data).
Proof.
  induction data as [|file data IH]; intros Hkeys grouped; cbn [forEach]; [now eexists|].
  apply bind_completes.
  - unfold groupStep. destruct (accepts file) eqn:E; cbn [negb]; [|now eexists].
    destruct (grouped !! yearOf file); [now eexists|].
    rewrite (Hkeys file) by (trivial; now left). now eexists.
  - intros g1 _. apply IH. intros f Hf. apply Hkeys. now right.
Qed.

Lemma sortGroups_lookup grouped : forall sorted,
  sortGroups ext grouped = Normal sorted ->
  forall year,
    match grouped !! year with
    | Some arr => exists group, sortGroup ext arr = Normal group /\ sorted !! year = Some group
    | None => sorted !! year = None
    end.
Proof.
  unfold sortGroups.
  apply (map_fold_weak_ind (fun r (m : gmap string (list string)) =>
    forall sorted, r = Normal sorted ->
    forall year,
      match m !! year with
      | Some arr => exists group, sortGroup ext arr = Normal group /\ sorted !! year = Some group
      | None => sorted !! year = None
      end)).
  - intros sorted [= <-] year. now rewrite !lookup_empty.
  - intros i arr m r Hi IH sorted H year.
    apply bind_Normal_inv in H as (done & Hr & H).
    apply bind_Normal_inv in H as (group & Hg & [= <-]).
    destruct (decide (i = year)) as [->|Hne].
    + rewrite !lookup_insert_eq. eauto.
    + rewrite !lookup_insert_ne by assumption. now apply IH.
Qed.

Lemma sortGroups_completes grouped :
  (forall year arr, grouped !! year = Some arr -> completes (sortGroup ext arr)) ->
  completes (sortGroups ext grouped).
Proof.
  unfold sortGroups.
  apply (map_fold_weak_ind (fun r (m : gmap string (list string)) =>
    (forall year arr, m !! year = Some arr -> completes (sortGroup ext arr)) ->
    completes r)).
  - intros _. now eexists.
  - intros i arr m r Hi IH H.
    apply bind_completes.
    + apply IH. intros year a Ha. apply (H year).
      rewrite lookup_insert_ne; [assumption | congruence].
    + intros done _. apply bind_completes; [|intros; now eexists].
      apply (H i). apply lookup_insert_eq.
Qed.

(** What a successful grouping holds under each year. *)
Lemma groupIndex_lookup data grouped year :
  groupIndex accepts ext data = Normal grouped ->
  match membersOf accepts year data with
  | [] => grouped !! year = None
  | members => exists group, sortGroup ext members = Normal group
                             /\ grouped !! year = Some group
  end.
Proof.
  unfold groupIndex. intros H.
  apply bind_Normal_inv in H as (g & Hg & Hs).
  pose proof (forEach_groupStep_lookup _ _ _ Hg year) as Hy.
  rewrite lookup_empty in Hy.
  pose proof (sortGroups_lookup _ _ Hs year) as Hl.
  rewrite Hy in Hl. now destruct (membersOf accepts year data).
Qed.

Lemma groupIndex_group data grouped year group :
  groupIndex accepts ext data = Normal grouped ->
  grouped !! year = Some group ->
  group <> []
  /\ sortGroup ext (membersOf accepts year data) = Normal group.
Proof.
  intros H Hy. pose proof (groupIndex_lookup data grouped year H) as Hl.
  destruct (membersOf accepts year data) as [|f members] eqn:E; [congruence|].
  destruct Hl as (group' & Hsort & Hy'). assert (group' = group) as -> by congruence.
  split; [|assumption].
  intros ->. apply sortGroup_Permutation, Permutation_nil in Hsort.
  discriminate.
Qed.

Lemma groupIndex_completes data :
  (forall file, In file data -> accepts file = true ->
                JSString.hasSeparator "-" file = true
                /\ ~ In (yearOf file) inheritedKeys) ->
  completes (groupIndex accepts ext data).
Proof.
  intros H. unfold groupIndex. apply bind_completes.
  - apply forEach_groupStep_completes. intros file Hin Hacc.
    destruct (H file Hin Hacc) as [_ Hk].
    destruct (JSArray.includes inheritedKeys (yearOf file)) eqn:E; [|reflexivity].
    apply includes_In in E. contradiction.
  - intros g Hg. apply sortGroups_completes. intros year arr Harr.
    pose proof (forEach_groupStep_lookup _ _ _ Hg year) as Hy.
    rewrite lookup_empty, Harr in Hy.
    assert (arr = membersOf accepts year data) as ->
      by (destruct (membersOf accepts year data); congruence).
    apply sortGroup_completes, List.Forall_forall. intros file Hf.
    apply filter_In in Hf as [Hin Hf]. apply andb_prop in Hf as [Hacc _].
    now apply H.
Qed.

End GrouperFacts.

Lemma yearOf_prefix file :
  JSString.hasSeparator "-" file = true ->
  exists rest, file = yearOf file +:+ String "-" rest
               /\ JSString.hasSeparator "-" (yearOf file) = false.
Proof.
  intros H. destruct (split_first "-" file H) as (year & rest & Hs & Hf & Hy).
  exists rest. unfold yearOf. rewrite Hs. now split.
Qed.

Lemma JsonViewer_group grouped data year group :
  JsonViewer.groupIndex data = Normal grouped ->
  grouped !! year = Some group ->
  Permutation group (membersOf JsonViewer.accepts year data)
  /\ Sorted (monthLe ".json") group.
Proof.
  intros H Hy. destruct (groupIndex_group _ _ _ _ _ _ H Hy) as [_ Hs].
  split; [now apply sortGroup_Permutation in Hs | now apply sortGroup_Sorted in Hs].
Qed.

Lemma JsonViewer_excludes grouped data file year group :
  JsonViewer.groupIndex data = Normal grouped ->
  JSString.endsWith file ".json" = false ->
  grouped !! year = Some group -> ~ In file group.
Proof.
  intros H Hext Hy Hin.
  destruct (JsonViewer_group _ _ _ _ H Hy) as [Hp _].
  eapply Permutation_in in Hin; [|exact Hp].
  apply filter_In in Hin as [_ Hin]. apply andb_prop in Hin as [Hacc _].
  unfold JsonViewer.accepts in Hacc. congruence.
Qed.

Lemma JsonViewer_includes grouped data file :
  JsonViewer.groupIndex data = Normal grouped ->
  In file data -> JSString.endsWith file ".json" = true ->
  exists group, grouped !! yearOf file = Some group /\ In file group.
Proof.
  intros H Hin Hext.
  pose proof (groupIndex_lookup _ _ _ _ (yearOf file) H) as Hl.
  assert (Hmem : In file (membersOf JsonViewer.accepts (yearOf file) data)).
  { apply filter_In. split; [assumption|].
    unfold JsonViewer.accepts. now rewrite Hext, String.eqb_refl. }
  destruct (membersOf JsonViewer.accepts (yearOf file) data) as [|f members];
    [contradiction|].
  destruct Hl as (group & Hs & Hy). exists group. split; [assumption|].
  apply sortGroup_Permutation in Hs. eapply Permutation_in; [symmetry; exact Hs|assumption].
Qed.

Lemma JsonViewer_completes data :
  (forall file,
      In file data -> JSString.endsWith file ".json" = true ->
      JSString.hasSeparator "-" file = true /\ ~ In (yearOf file) inheritedKeys) ->
  completes (JsonViewer.groupIndex data).
Proof. apply groupIndex_completes. Qed.

(** C3: whenever the grouping of an index completes, which it does for
    every index whose accepted identifiers have a separator and a year
    that is no inherited property name, each year's group holds exactly
    the identifiers of the index that end in ".json" and have that year
    before their first "-", each as often as the index has it; the group
    is ordered by the position of the month token in the month table,
    identifiers of one month in index order; an identifier without the
    extension is in no group; and ["2024-Dec.json"; "2024-Jan.json"]
    yields ["2024-Jan.json"; "2024-Dec.json"]. *)
Theorem groupIndex_groups (data : list string) :
  (forall grouped,
      JsonViewer.groupIndex data = Normal grouped ->
      (forall year group,
          grouped !! year = Some group ->
          Permutation group (membersOf JsonViewer.accepts year data)
          /\ Sorted (monthLe ".json") group
          /\ forall i,
               List.filter (fun file => Z.eqb (monthKey ".json" file) i) group
               = List.filter (fun file => Z.eqb (monthKey ".json" file) i)
                             (membersOf JsonViewer.accepts year data))
      /\ (forall file,
             JSString.endsWith file ".json" = false ->
             forall year group, grouped !! year = Some group -> ~ In file group)
      /\ (forall file,
             In file data -> JSString.endsWith file ".json" = true ->
             exists group, grouped !! yearOf file = Some group /\ In file group))
  /\ (forall file,
         JSString.hasSeparator "-" file = true ->
         exists rest, file = yearOf file +:+ String "-" rest
                      /\ JSString.hasSeparator "-" (yearOf file) = false)
  /\ ((forall file,
          In file data -> JSString.endsWith file ".json" = true ->
          JSString.hasSeparator "-" file = true /\ ~ In (yearOf file) inheritedKeys) ->
      completes (JsonViewer.groupIndex data))
  /\ JsonViewer.groupIndex ["2024-Dec.json"; "2024-Jan.json"]
     = Normal {["2024" := ["2024-Jan.json"; "2024-Dec.json"]]}
  /\ JsonViewer.groupIndex ["2024-Nov.json"; "2024-Oct.json"; "2024-Apr.json"]
     = Normal {["2024" := ["2024-Apr.json"; "2024-Oct.json"; "2024-Nov.json"]]}
  /\ JsonViewer.groupIndex
       ["2024-Jan.json"; "2024-Nov.json"; "2023-Dec.json"; "bad-entry.txt"]
     = Normal (<["2024" := ["2024-Jan.json"; "2024-Nov.json"]]>
                 {["2023" := ["2023-Dec.json"]]}).
Proof.
  split; [|split; [exact yearOf_prefix|split; [apply JsonViewer_completes|]]].
  - intros grouped H. split; [|split].
    + intros year group Hy.
      destruct (JsonViewer_group _ _ _ _ H Hy) as [Hp Hs].
      split; [assumption|]. split; [assumption|].
      intros i. destruct (groupIndex_group _ _ _ _ _ _ H Hy) as [_ Hg].
      now apply sortGroup_stable.
    + intros file Hext year group. now apply JsonViewer_excludes with (data := data).
    + intros file. now apply JsonViewer_includes.
  - repeat split; vm_compute; reflexivity.
Qed.

Lemma groupIndex_groups_witness :
  let data := ["2024-Dec.json"; "notes.md"; "2024-Jan.json"] in
  JsonViewer.groupIndex data = Normal {["2024" := ["2024-Jan.json"; "2024-Dec.json"]]}
  /\ Sorted (monthLe ".json") ["2024-Jan.json"; "2024-Dec.json"]
  /\ completes (JsonViewer.groupIndex data).
Proof.
  intros data.
  pose proof (groupIndex_groups data) as (Hgroups & _ & Hcompletes & _).
  assert (E : JsonViewer.groupIndex data
              = Normal {["2024" := ["2024-Jan.json"; "2024-Dec.json"]]})
    by (vm_compute; reflexivity).
  assert (L : ({["2024" := ["2024-Jan.json"; "2024-Dec.json"]]} : gmap string (list string))
                !! "2024" = Some ["2024-Jan.json"; "2024-Dec.json"])
    by (vm_compute; reflexivity).
  split; [exact E|]. split.
  - apply (proj1 (Hgroups _ E) "2024" _ L).
  - apply Hcompletes. intros file Hin Hext.
    destruct Hin as [<-|[<-|[<-|[]]]]; try discriminate Hext;
      (split; [reflexivity|]); vm_compute; intuition discriminate.
Defined.

(** The older text viewer accepts every identifier and strips ".txt". *)
Lemma TextViewer_groupIndex_example :
  TextViewer.groupIndex ["2024-Dec.txt"; "2024-Jan.txt"; "notes.md"]
  = Normal (<["2024" := ["2024-Jan.txt"; "2024-Dec.txt"]]> {["notes.md" := ["notes.md"]]}).
Proof. vm_compute. reflexivity. Qed.

(** C7, as the code has it: an identifier without the extension is in no
    group; an identifier with the extension and without a separator is
    kept, in the group named by the whole identifier; and the grouping
    completes on every index whose identifiers with the extension all have
    a separator and a year that is no inherited property name. *)
Theorem groupIndex_unparseable (data : list string) :
  (forall grouped,
      JsonViewer.groupIndex data = Normal grouped ->
      (forall file,
          JSString.endsWith file ".json" = false ->
          forall year group, grouped !! year = Some group -> ~ In file group)
      /\ (forall file,
             In file data -> JSString.endsWith file ".json" = true ->
             JSString.hasSeparator "-" file = false ->
             exists group, grouped !! file = Some group /\ In file group))
  /\ ((forall file,
          In file data -> JSString.endsWith file ".json" = true ->
          JSString.hasSeparator "-" file = true /\ ~ In (yearOf file) inheritedKeys) ->
      completes (JsonViewer.groupIndex data)).
Proof.
  split; [|apply JsonViewer_completes].
  intros grouped H. split.
  - intros file Hext year group. now apply JsonViewer_excludes with (data := data).
  - intros file Hin Hext Hsep.
    destruct (JsonViewer_includes _ _ _ H Hin Hext) as (group & Hy & Hg).
    rewrite (yearOf_no_separator file Hsep) in Hy. eauto.
Qed.

Lemma groupIndex_unparseable_witness :
  let data := ["2024-Feb.json"; "index.json"; "README.md"] in
  (exists group,
      (<["2024" := ["2024-Feb.json"]]> {["index.json" := ["index.json"]]}
        : gmap string (list string)) !! "index.json" = Some group
      /\ In "index.json" group)
  /\ completes (JsonViewer.groupIndex ["2024-Feb.json"; "2024-Jan.json"; "README.md"]).
Proof.
  intros data. split.
  - apply (proj1 (groupIndex_unparseable data)); vm_compute; auto.
  - apply (proj2 (groupIndex_unparseable ["2024-Feb.json"; "2024-Jan.json"; "README.md"])).
    intros file Hin Hext.
    destruct Hin as [<-|[<-|[<-|[]]]]; try discriminate Hext;
      (split; [reflexivity|]); vm_compute; intuition discriminate.
Defined.

(** C7 as stated fails: an identifier with the extension and no separator
    is grouped, under its own name, and two of them under one name make
    the grouping throw. *)
Lemma groupIndex_keeps_unparseable :
  JSString.hasSeparator "-" "nodash.json" = false
  /\ JsonViewer.groupIndex ["nodash.json"]
     = Normal {["nodash.json" := ["nodash.json"]]}
  /\ JsonViewer.groupIndex ["nodash.json"; "nodash.json"] = Throw undefinedReplace.
Proof. repeat split; vm_compute; reflexivity. Qed.

(** ** Unrecognized month tokens *)

Lemma indexOf_from_spec x l : forall i,
  (0 <= i)%Z ->
  (In x l -> (i <= JSArray.indexOf_from x l i)%Z)
  /\ (~ In x l -> JSArray.indexOf_from x l i = (-1)%Z).
Proof.
  induction l as [|y l IH]; intros i Hi; cbn [JSArray.indexOf_from In].
  - split; [contradiction | reflexivity].
  - destruct (String.eqb_spec y x) as [->|Hne].
    + split; [lia | intros H; exfalso; apply H; now left].
    + destruct (IH (i + 1)%Z) as [IH1 IH2]; [lia|]. split.
      * intros [H|H]; [contradiction|]. specialize (IH1 H). lia.
      * intros H. apply IH2. intros Hin. apply H. now right.
Qed.

Lemma indexOf_In l x : In x l -> (0 <= JSArray.indexOf l x)%Z.
Proof. intros H. now apply (indexOf_from_spec x l 0). Qed.

Lemma indexOf_not_In l x : ~ In x l -> JSArray.indexOf l x = (-1)%Z.
Proof. intros H. now apply (indexOf_from_spec x l 0). Qed.

Section RecognizedFacts.
Variable ext : string.

Lemma recognized_index file :
  recognized ext file <-> exists i, monthIndex ext file = Some i /\ (0 <= i)%Z.
Proof.
  unfold recognized, monthIndex. split.
  - intros (month & -> & Hin). eexists. split; [reflexivity|]. now apply indexOf_In.
  - intros (i & H & Hi). destruct (monthOf ext file) as [month|]; [|discriminate].
    injection H as <-. exists month. split; [reflexivity|].
    destruct (in_dec String.string_dec month MONTH_ORDER) as [Hin|Hout]; [assumption|].
    rewrite (indexOf_not_In _ _ Hout) in Hi. lia.
Qed.

Lemma unrecognized_index file :
  unrecognized ext file -> monthIndex ext file = Some (-1)%Z.
Proof.
  unfold unrecognized, monthIndex. intros (month & -> & Hout).
  now rewrite (indexOf_not_In _ _ Hout).
Qed.

Lemma unrecognized_not_recognized file :
  unrecognized ext file -> ~ recognized ext file.
Proof.
  intros Hu Hr. apply unrecognized_index in Hu.
  apply recognized_index in Hr as (i & Hi & Hpos). rewrite Hu in Hi.
  injection Hi as <-. lia.
Qed.

Lemma recognized_dec file : {recognized ext file} + {~ recognized ext file}.
Proof.
  destruct (monthIndex ext file) as [i|] eqn:E.
  - destruct (Z_le_dec 0 i) as [Hi|Hi].
    + left. apply recognized_index. eauto.
    + right. intros H. apply recognized_index in H as (j & Hj & Hpos).
      rewrite E in Hj. injection Hj as <-. contradiction.
  - right. intros H. apply recognized_index in H as (j & Hj & _). congruence.
Qed.

Lemma monthLe_trans a b c : monthLe ext a b -> monthLe ext b c -> monthLe ext a c.
Proof.
  intros (i & j & Ha & Hb & Hij) (j' & k & Hb' & Hc & Hjk).
  rewrite Hb in Hb'. injection Hb' as <-. exists i, k. repeat split; trivial. lia.
Qed.

Lemma monthLe_recognized a b : monthLe ext a b -> recognized ext a -> recognized ext b.
Proof.
  intros (i & j & Ha & Hb & Hij) Hr. apply recognized_index in Hr as (i' & Ha' & Hpos).
  rewrite Ha in Ha'. injection Ha' as <-. apply recognized_index. exists j. split; [assumption|lia].
Qed.

(** A group in calendar order has its unrecognized months in front. *)
Lemma Sorted_unrecognized_first group :
  Sorted (monthLe ext) group ->
  exists front back,
    group = front ++ back
    /\ Forall (fun file => ~ recognized ext file) front
    /\ Forall (recognized ext) back.
Proof.
  intros Hs. apply Sorted_StronglySorted in Hs; [|exact monthLe_trans].
  induction Hs as [|x l Hl IH Hx].
  - exists [], []. repeat split; constructor.
  - destruct (recognized_dec x) as [Hr|Hn].
    + exists [], (x :: l). repeat split; [constructor|].
      constructor; [assumption|].
      eapply Forall_impl; [exact Hx|]. intros y Hy. now apply (monthLe_recognized x).
    + destruct IH as (front & back & -> & Hf & Hb).
      exists (x :: front), back. repeat split; [now constructor | assumption].
Qed.

Lemma compareMonths_unrecognized a b :
  unrecognized ext a -> recognized ext b ->
  exists v, compareMonths ext a b = Normal v /\ (v < 0)%Z.
Proof.
  intros (ma & Ha & Hout) (mb & Hb & Hin). unfold compareMonths.
  rewrite Ha, Hb. cbn [mbind completion_bind]. eexists. split; [reflexivity|].
  rewrite (indexOf_not_In _ _ Hout). pose proof (indexOf_In _ _ Hin). lia.
Qed.

End RecognizedFacts.

(** C10: the comparator puts an identifier whose month token is not in the
    month table strictly before every identifier whose token is; so in
    each group of a completed grouping the identifiers without a
    recognized month come first and the recognized ones after them; such
    an identifier is kept in its year's group; and unrecognized tokens do
    not make the grouping throw. *)
Theorem unrecognized_months_first (data : list string) :
  (forall a b,
      unrecognized ".json" a -> recognized ".json" b ->
      exists v, JsonViewer.compareMonths a b = Normal v /\ (v < 0)%Z)
  /\ (forall grouped year group,
         JsonViewer.groupIndex data = Normal grouped ->
         grouped !! year = Some group ->
         exists front back,
           group = front ++ back
           /\ Forall (fun file => ~ recognized ".json" file) front
           /\ Forall (recognized ".json") back)
  /\ (forall file, unrecognized ".json" file -> ~ recognized ".json" file)
  /\ (forall grouped file,
         JsonViewer.groupIndex data = Normal grouped ->
         In file data -> JSString.endsWith file ".json" = true ->
         unrecognized ".json" file ->
         exists group, grouped !! yearOf file = Some group /\ In file group)
  /\ ((forall file,
          In file data -> JSString.endsWith file ".json" = true ->
          JSString.hasSeparator "-" file = true /\ ~ In (yearOf file) inheritedKeys) ->
      completes (JsonViewer.groupIndex data))
  /\ JsonViewer.groupIndex ["2024-Jan.json"; "2024-Foo.json"; "2024-Dec.json"; "2024-.json"]
     = Normal {["2024" := ["2024-Foo.json"; "2024-.json"; "2024-Jan.json"; "2024-Dec.json"]]}.
Proof.
  split; [apply compareMonths_unrecognized|].
  split.
  { intros grouped year group H Hy.
    apply Sorted_unrecognized_first. now apply (JsonViewer_group grouped data year). }
  split; [apply unrecognized_not_recognized|].
  split; [intros grouped file H Hin Hext _; now apply JsonViewer_includes with (data := data)|].
  split; [apply JsonViewer_completes|].
  vm_compute. reflexivity.
Qed.

Lemma unrecognized_months_first_witness :
  let data := ["2024-Jan.json"; "2024-Foo.json"] in
  (exists v, JsonViewer.compareMonths "2024-Foo.json" "2024-Jan.json" = Normal v /\ (v < 0)%Z)
  /\ (exists front back,
         ["2024-Foo.json"; "2024-Jan.json"] = front ++ back
         /\ Forall (fun file => ~ recognized ".json" file) front
         /\ Forall (recognized ".json") back)
  /\ completes (JsonViewer.groupIndex data).
Proof.
  intros data.
  pose proof (unrecognized_months_first data) as (Hcmp & Hfront & _ & _ & Hcompletes & _).
  assert (E : JsonViewer.groupIndex data
              = Normal {["2024" := ["2024-Foo.json"; "2024-Jan.json"]]})
    by (vm_compute; reflexivity).
  assert (L : ({["2024" := ["2024-Foo.json"; "2024-Jan.json"]]} : gmap string (list string))
                !! "2024" = Some ["2024-Foo.json"; "2024-Jan.json"])
    by (vm_compute; reflexivity).
  split; [|split].
  - apply Hcmp.
    + exists "Foo". split; [reflexivity|]. vm_compute. intuition discriminate.
    + exists "Jan". split; [reflexivity|]. now left.
  - exact (Hfront _ "2024" _ E L).
  - apply Hcompletes. intros file Hin Hext.
    destruct Hin as [<-|[<-|[]]];
      (split; [reflexivity|]); vm_compute; intuition discriminate.
Defined.

(** ** Data loader *)

Lemma uniq_In seen l x :
  In x (JSArray.uniq seen l) <-> In x l /\ ~ In x seen.
Proof.
  revert seen. induction l as [|y l IH]; intros seen; cbn [JSArray.uniq In]; [tauto|].
  destruct (JSArray.includes seen y) eqn:E.
  - apply includes_In in E. rewrite IH. split; [tauto|].
    intros [[->|H] Hn]; [contradiction | tauto].
  - assert (Hy : ~ In y seen) by (rewrite <- includes_In; congruence).
    cbn [In]. rewrite IH. cbn [In]. split.
    + intros [->|(H & Hn)]; [tauto|]. split; [tauto|]. intros Hs. apply Hn. now right.
    + intros [[->|H] Hn]; [now left|].
      destruct (String.string_dec y x) as [->|Hne]; [now left|].
      right. split; [assumption|]. intros [?|?]; contradiction.
Qed.

Lemma uniq_NoDup seen l : List.NoDup (JSArray.uniq seen l).
Proof.
  revert seen. induction l as [|y l IH]; intros seen; cbn [JSArray.uniq]; [constructor|].
  destruct (JSArray.includes seen y); [apply IH|].
  constructor; [|apply IH]. rewrite uniq_In. intros [_ H]. apply H. now left.
Qed.

Lemma ltb_leb_string x y : String.ltb x y = true -> String.leb x y = true.
Proof. unfold String.ltb, String.leb. now destruct (String.compare x y). Qed.

Lemma not_ltb_leb_string x y : String.ltb y x = false -> String.leb x y = true.
Proof.
  unfold String.ltb, String.leb. rewrite (String.compare_antisym x y).
  now destruct (String.compare y x).
Qed.

Lemma leb_neq_ltb_string x y : String.leb x y = true -> x <> y -> String.ltb x y = true.
Proof.
  unfold String.ltb, String.leb. intros H Hne.
  destruct (String.compare x y) eqn:E; [|reflexivity|discriminate].
  apply String.compare_eq_iff in E. contradiction.
Qed.

Lemma sortStrings_Sorted l :
  Sorted (fun x y => String.leb x y = true) (JSArray.sortStrings l).
Proof.
  apply sort_by_Sorted with (P := fun _ => True).
  - intros x y _ _. apply ltb_leb_string.
  - intros x y _ _. apply not_ltb_leb_string.
  - now apply List.Forall_forall.
Qed.

Lemma Sorted_NoDup_strict l :
  Sorted (fun x y => String.leb x y = true) l -> List.NoDup l -> Sorted stringLt l.
Proof.
  induction 1 as [|x l Hs IH Hhd]; intros Hnd; [constructor|].
  inversion Hnd as [|? ? Hx Hnd']; subst. constructor; [now apply IH|].
  destruct Hhd as [|y l Hxy]; constructor.
  apply leb_neq_ltb_string; [assumption|]. intros ->. apply Hx. now left.
Qed.

Lemma categoriesOf_spec json :
  Sorted stringLt (categoriesOf json)
  /\ List.NoDup (categoriesOf json)
  /\ forall c, In c (categoriesOf json) <-> In c (categoryValues json).
Proof.
  unfold categoriesOf, JSArray.sortStrings. fold (categoryValues json).
  set (after := fun x y => String.ltb y x).
  pose proof (sort_by_Permutation after (JSArray.uniq [] (categoryValues json))) as Hp.
  assert (Hnd : List.NoDup (JSArray.sort_by after (JSArray.uniq [] (categoryValues json)))).
  { eapply Permutation_NoDup; [symmetry; exact Hp|]. apply uniq_NoDup. }
  split; [|split; [exact Hnd|]].
  - apply Sorted_NoDup_strict; [apply sortStrings_Sorted | exact Hnd].
  - intros c. split; intros H.
    + eapply Permutation_in in H; [|exact Hp]. now apply uniq_In in H.
    + eapply Permutation_in; [symmetry; exact Hp|]. apply uniq_In. now split.
Qed.

(** C8, as the code has it: after a successful month fetch the dataset is
    the fetched one, the category list is the strictly increasing list of
    the distinct category values of its product mapping, the category
    filter is back to "All" and the summary view is selected, whatever
    they were before; the score sort order is the one selected before. *)
Theorem monthSettled_success (file : string) (json : PatchTuesdayData) (st : State) :
  exists st',
    monthSettled file (Response true (Normal json)) st = Normal st'
    /\ data st' = Some json
    /\ Sorted stringLt (categories st')
    /\ List.NoDup (categories st')
    /\ (forall c, In c (categories st') <-> In c (categoryValues json))
    /\ selectedCategory st' = ""
    /\ showSummary st' = true
    /\ loading st' = false
    /\ cvssSort st' = cvssSort st.
Proof.
  eexists. split; [reflexivity|].
  cbn [monthLoaded setLoading setShowSummary setSelectedCategory setCategories setData
       data categories selectedCategory showSummary loading cvssSort].
  destruct (categoriesOf_spec json) as (Hs & Hnd & Hin).
  repeat split; trivial; apply Hin.
Qed.

(** C8 as stated fails: a descending sort selected before the fetch is
    still selected after it. *)
Lemma monthSettled_keeps_sort :
  let json := mkPatchTuesdayData (Metadata.mk "" "" "" "" 0%float "" "") [] [] in
  exists st',
    monthSettled "2024-Jan.json" (Response true (Normal json)) (setCvssSort Desc initialState)
    = Normal st'
    /\ cvssSort st' = Desc
    /\ cvssSort st' <> NoSort.
Proof. intros json. eexists. split; [reflexivity|]. split; [reflexivity | discriminate]. Qed.

Lemma checkResponse_fails {A} what (res : fetched A) :
  fetchFails res <-> exists e, checkResponse what res = Throw e.
Proof.
  destruct res as [e|[] [json|e]]; cbn [fetchFails checkResponse negb]; split;
    try (intros _; now eexists); try (intros [e' H]; discriminate H); try now left.
  - intros [H|[e H]]; discriminate H.
  - intros _. right. now eexists.
Qed.

(** C9: when a month fetch fails, by rejection, by a status that is not a
    success or by a body that does not parse, the chain settles normally
    in a state without dataset and with an empty category list, whatever
    was displayed before, with one more diagnostic on the console; the
    chain settles normally on every outcome; and a body that does not
    parse leaves the same state as a rejected request with that error.
    The text viewer replaces its content by a failure notice and logs the
    same diagnostic. *)
Theorem monthSettled_failure (file : string) (st : State) :
  (forall res : fetched PatchTuesdayData,
      fetchFails res ->
      exists e st',
        checkResponse file res = Throw e
        /\ monthSettled file res st = Normal st'
        /\ data st' = None
        /\ categories st' = []
        /\ console st' = console st ++ [("Error loading patch content:", e)]
        /\ loading st' = false)
  /\ (forall res : fetched PatchTuesdayData, completes (monthSettled file res st))
  /\ (forall e, monthSettled file (Response true (Throw e)) st
                = monthSettled file (Rejected e) st)
  /\ (forall (res : fetched string) (ts : TextState.t),
         fetchFails res ->
         exists e,
           checkResponse file res = Throw e
           /\ TextState.content (TextState.contentSettled file res ts)
              = "Failed to load content."
           /\ TextState.console (TextState.contentSettled file res ts)
              = TextState.console ts ++ [("Error loading patch content:", e)]).
Proof.
  split; [|split; [|split]].
  - intros res Hf. apply (checkResponse_fails file) in Hf as [e He].
    exists e. eexists. unfold monthSettled. rewrite He. repeat split.
  - intros res. unfold monthSettled. destruct (checkResponse file res); now eexists.
  - reflexivity.
  - intros res ts Hf. apply (checkResponse_fails file) in Hf as [e He].
    exists e. unfold TextState.contentSettled. rewrite He. repeat split.
Qed.

Lemma monthSettled_failure_witness :
  let shown := setCategories ["Windows"]
                 (setData (Some (mkPatchTuesdayData (Metadata.mk "" "" "" "" 0%float "" "") [] []))
                          initialState) in
  let res : fetched PatchTuesdayData := Response false (Throw (SyntaxError "")) in
  exists e st',
    checkResponse "2024-Jan.json" res = Throw e
    /\ monthSettled "2024-Jan.json" res shown = Normal st'
    /\ data st' = None
    /\ categories st' = []
    /\ console st' = console shown ++ [("Error loading patch content:", e)]
    /\ loading st' = false.
Proof.
  intros shown res.
  apply (proj1 (monthSettled_failure "2024-Jan.json" shown)).
  now left.
Defined.

(** ** Scenarios of the specification *)

(** A failed index fetch leaves the navigation as it was and logs one
    diagnostic. *)
Lemma indexSettled_failure (res : fetched (list string)) (st : State) :
  fetchFails res ->
  exists e,
    patches (indexSettled res st) = patches st
    /\ console (indexSettled res st) = console st ++ [("Error loading index.json:", e)].
Proof.
  intros Hf. apply (checkResponse_fails "index.json") in Hf as [e He].
  exists e. unfold indexSettled. now rewrite He.
Qed.

(** Three records, one exploited and scored 9.8, one without a score, one
    scored 5.0 in category "Windows": the "Windows" view has one record,
    none exploited, none critical, and average 5.0. *)
Lemma end_to_end_scenario :
  let windows := mkVulnerability "CVE-3" "" (Some 5.0%float) false false []
                   [AffectedProduct.mk "p1" "Windows 11" "Windows"] in
  let vulns := [mkVulnerability "CVE-1" "" (Some 9.8%float) true false [] [];
                mkVulnerability "CVE-2" "" None false false [] [];
                windows] in
  let stats := getSummaryStats (filterAndSort "Windows" NoSort vulns) in
  Stats.total stats = 1 /\ Stats.exploited stats = 0
  /\ Stats.critical stats = 0 /\ Stats.avg stats = 5.0%float.
Proof. repeat split; reflexivity. Qed.

(** Without a dataset the filter effect leaves the view as it is. *)
Lemma filterEffect_no_data (st : State) : data st = None -> filterEffect st = st.
Proof. unfold filterEffect. now intros ->. Qed.

(** ** More order facts of binary64 numbers *)

Module Binary64Ties.
Import Binary64.
Local Open Scope float_scope.

Lemma SFcompare_refl x : not_nan x -> SFcompare x x = Some Eq.
Proof.
  intros Nx. destruct x as [s|s| |s m e]; [reflexivity| |now exfalso|].
  - now destruct s.
  - cbn [SFcompare]. rewrite Z.compare_refl, Pos.compare_cont_refl. now destruct s.
Qed.

Lemma SFcompare_Eq x k :
  SFcompare x k = Some Eq ->
  not_nan x /\ not_nan k
  /\ ((exists s s', x = S754_zero s /\ k = S754_zero s') \/ x = k).
Proof.
  destruct x as [sx|sx| |sx mx ex], k as [sk|sk| |sk mk ek]; cbn [SFcompare];
    try discriminate; try (destruct sx; discriminate); try (destruct sk; discriminate);
    intros H; (split; [discriminate|]); (split; [discriminate|]).
  - left. eauto.
  - right. destruct sx, sk; try discriminate; reflexivity.
  - right. rewrite Pos.compare_cont_spec in H. cbn [Pos.switch_Eq] in H.
    destruct sx, sk; try discriminate H;
      destruct (Z.compare_spec ex ek) as [->| |]; try discriminate H;
      destruct (Pos.compare_spec mx mk) as [->| |]; try discriminate H; reflexivity.
Qed.

Lemma SFcompare_tie x y k :
  SFcompare x k = Some Eq -> SFcompare y k = Some Eq -> SFcompare y x = Some Eq.
Proof.
  intros Hx Hy.
  apply SFcompare_Eq in Hx as (Nx & _ & Hx). apply SFcompare_Eq in Hy as (Ny & _ & Hy).
  destruct Hx as [(s & s' & Hx & Hk)|Hx], Hy as [(t & t' & Hy & Hk')|Hy]; subst.
  - reflexivity.
  - reflexivity.
  - reflexivity.
  - now apply SFcompare_refl.
Qed.

Lemma eqb_not_nan x k : (x =? k) = true -> JSNumber.is_nan x = false.
Proof.
  unfold JSNumber.is_nan. rewrite !FloatAxioms.eqb_spec. unfold SFeqb. intros H.
  destruct (SFcompare (Prim2SF x) (Prim2SF k)) as [[]|] eqn:E; try discriminate.
  apply SFcompare_Eq in E as (Nx & _). now rewrite SFcompare_refl.
Qed.

Lemma leb_not_nan a s : (a <=? s) = true -> JSNumber.is_nan s = false.
Proof.
  unfold JSNumber.is_nan. rewrite FloatAxioms.leb_spec, FloatAxioms.eqb_spec.
  unfold SFleb, SFeqb. intros H.
  rewrite SFcompare_refl; [reflexivity|].
  intros E. rewrite E in H. now destruct (Prim2SF a).
Qed.

(** Two numbers equal to a third are not ordered by the comparator. *)
Lemma tie_not_positive x y k :
  (x =? k) = true -> (y =? k) = true -> (0 <? x - y) = false.
Proof.
  intros Hx Hy.
  rewrite Binary64Facts.sub_positive by eauto using eqb_not_nan.
  rewrite FloatAxioms.eqb_spec in Hx, Hy. rewrite FloatAxioms.ltb_spec.
  unfold SFeqb in Hx, Hy. unfold SFltb.
  destruct (SFcompare (Prim2SF x) (Prim2SF k)) as [[]|] eqn:Ex; try discriminate.
  destruct (SFcompare (Prim2SF y) (Prim2SF k)) as [[]|] eqn:Ey; try discriminate.
  now rewrite (SFcompare_tie _ _ _ Ex Ey).
Qed.

Lemma eight_le_seven_le s : (8 <=? s) = true -> (7 <=? s) = true.
Proof.
  rewrite !FloatAxioms.leb_spec.
  change (Prim2SF 8) with (S754_finite false 4503599627370496 (-49)).
  change (Prim2SF 7) with (S754_finite false 7881299347898368 (-50)).
  destruct (Prim2SF s) as [[]|[]| |[] m e]; try (intros; reflexivity || discriminate).
  unfold SFleb, SFcompare.
  destruct (Z.compare_spec (-49) e); destruct (Z.compare_spec (-50) e);
    try lia; try discriminate; trivial.
Qed.

End Binary64Ties.

(** ** Presentation helpers *)

Lemma append_cons c s t : String c s +:+ t = String c (s +:+ t).
Proof. reflexivity. Qed.

Lemma length_append s t :
  String.length (s +:+ t) = String.length s + String.length t.
Proof.
  induction s as [|c s IH]; [reflexivity|].
  rewrite append_cons. simpl. now f_equal.
Qed.

Lemma append_nil_r s : s +:+ "" = s.
Proof. induction s as [|c s IH]; [reflexivity|]. rewrite append_cons. now f_equal. Qed.

Lemma append_assoc s t u : (s +:+ t) +:+ u = s +:+ (t +:+ u).
Proof. induction s as [|c s IH]; [reflexivity|]. rewrite !append_cons. now f_equal. Qed.

Lemma copies_space n :
  String.length (JSText.copies " " n) = n
  /\ JSText.count " " (JSText.copies " " n) = n.
Proof.
  induction n as [|n [IH1 IH2]]; [easy|].
  change (JSText.copies " " (S n)) with (String " " (JSText.copies " " n)).
  simpl. now rewrite IH1, IH2.
Qed.

Lemma repeat_completes s count :
  completes (JSText.repeat s count) <-> (0 <= count)%Z.
Proof.
  unfold JSText.repeat. destruct (Z.ltb_spec count 0); split; try lia.
  - intros [r H']. discriminate.
  - intros _. now eexists.
Qed.

(** X1: [pad] never throws: the count handed to [repeat] is never
    negative.  The result is the string followed by spaces only, it is as
    long as the longer of the string and the width, and it is the string
    itself when the string already fills the width. *)
Theorem pad_total (str : string) (len : Z) :
  exists spaces,
    pad str len = Normal (str +:+ spaces)
    /\ JSText.count " " spaces = String.length spaces
    /\ Z.of_nat (String.length (str +:+ spaces)) = Z.max len (Z.of_nat (String.length str))
    /\ ((len <= Z.of_nat (String.length str))%Z -> spaces = "").
Proof.
  unfold pad, JSText.repeat.
  set (n := Z.max 0 (len - Z.of_nat (String.length str))).
  assert (Hn : (n <? 0)%Z = false) by (apply Z.ltb_ge; subst n; lia).
  rewrite Hn. cbn [mbind completion_bind].
  exists (JSText.copies " " (Z.to_nat n)).
  destruct (copies_space (Z.to_nat n)) as [Hl Hc].
  split; [reflexivity|]. split; [congruence|]. split.
  - rewrite length_append, Hl. subst n. lia.
  - intros Hle. replace n with 0%Z by (subst n; lia). reflexivity.
Qed.

Lemma append_inj_r s t u : s +:+ t = s +:+ u -> t = u.
Proof.
  induction s as [|c s IH]; [trivial|]. rewrite !append_cons. intros [= H]. auto.
Qed.

(** X2: the link of a record determines its identifier and which of the
    two sites it points to: two links are equal only for equal
    identifiers and titles that are both usable or both not. *)
Theorem getCveUrl_injective (cve1 cve2 : string) (title1 title2 : option string) :
  getCveUrl cve1 title1 = getCveUrl cve2 title2 ->
  cve1 = cve2 /\ usableTitle title1 = usableTitle title2.
Proof.
  unfold getCveUrl.
  destruct (usableTitle title1), (usableTitle title2); intros H.
  - split; [|reflexivity]. now apply append_inj_r in H.
  - vm_compute in H. discriminate.
  - vm_compute in H. discriminate.
  - split; [|reflexivity]. now apply append_inj_r in H.
Qed.

Lemma getCveUrl_injective_witness :
  "CVE-2024-0001" = "CVE-2024-0001"
  /\ usableTitle (Some "Kernel flaw") = usableTitle (Some "Other title").
Proof.
  apply (getCveUrl_injective "CVE-2024-0001" "CVE-2024-0001"
           (Some "Kernel flaw") (Some "Other title")).
  reflexivity.
Defined.

(** X3: the displayed category is the category itself except for
    "Mariner"; displaying twice changes nothing; and two categories share
    a label exactly when they are equal or are "Mariner" and its own
    label. *)
Theorem displayCategory_kernel (a b : string) :
  (displayCategory a = displayCategory b <->
   a = b
   \/ (a = "Mariner" /\ b = "Azure Linux (CBL-Mariner)")
   \/ (a = "Azure Linux (CBL-Mariner)" /\ b = "Mariner"))
  /\ displayCategory (displayCategory a) = displayCategory a
  /\ (a <> "Mariner" -> displayCategory a = a).
Proof.
  unfold displayCategory.
  destruct (String.eqb_spec a "Mariner") as [->|Ha],
           (String.eqb_spec b "Mariner") as [->|Hb].
  - split; [|split]; [split; auto | reflexivity | congruence].
  - split; [|split]; [|reflexivity|congruence]. split.
    + intros <-. auto.
    + intros [H|[[_ H]|[H _]]]; congruence.
  - split; [|split]; [|now rewrite (proj2 (String.eqb_neq a "Mariner")) | trivial]. split.
    + intros ->. auto.
    + intros [H|[[H _]|[H _]]]; congruence.
  - split; [|split]; [|now rewrite (proj2 (String.eqb_neq a "Mariner")) | trivial]. split.
    + auto.
    + intros [H|[[H _]|[_ H]]]; congruence.
Qed.

Lemma uniq_length seen l : length (JSArray.uniq seen l) <= length l.
Proof.
  revert seen. induction l as [|x l IH]; intros seen; cbn [JSArray.uniq]; [lia|].
  destruct (JSArray.includes seen x); cbn [length].
  - specialize (IH seen). lia.
  - specialize (IH (x :: seen)). lia.
Qed.

(** X4: the Products cell lists each displayed category of the record's
    affected products once: the labels are pairwise distinct, a label is
    listed exactly when some affected product displays as it, and there
    are at most as many labels as products. *)
Theorem productLabels_distinct (vuln : Vulnerability) :
  List.NoDup (productLabels vuln)
  /\ (forall label,
         In label (productLabels vuln) <->
         exists prod, In prod (affected_products vuln)
                      /\ displayCategory (AffectedProduct.category prod) = label)
  /\ length (productLabels vuln) <= length (affected_products vuln).
Proof.
  unfold productLabels. split; [apply uniq_NoDup|]. split.
  - intros label. rewrite uniq_In, in_map_iff. split.
    + intros [(prod & E & Hin) _]. eauto.
    + intros (prod & Hin & E). split; [eauto | intros []].
  - etransitivity; [apply uniq_length|]. now rewrite length_map.
Qed.

(** ** Summary view *)

Lemma geb_scoreOrZero_8 v :
  JSNumber.geb (scoreOrZero v) 8.0 = scoreAtLeast 8.0 v.
Proof. unfold scoreOrZero, scoreAtLeast, JSNumber.geb. now destruct (cvss_score v). Qed.

Lemma scoreAtLeast_numeric t v : scoreAtLeast t v = true -> numericScore v.
Proof.
  unfold scoreAtLeast, numericScore, scoreOrZero.
  destruct (cvss_score v); [apply Binary64Ties.leb_not_nan | discriminate].
Qed.

Lemma scoreAtLeast_8_7 v : scoreAtLeast 8.0 v = true -> scoreAtLeast 7.0 v = true.
Proof.
  unfold scoreAtLeast. destruct (cvss_score v); [|discriminate].
  apply Binary64Ties.eight_le_seven_le.
Qed.

Lemma highest_filter vulns :
  highest vulns = sortByScore Desc (List.filter (scoreAtLeast 8.0) vulns).
Proof.
  unfold highest, sortByScore. f_equal. apply List.filter_ext, geb_scoreOrZero_8.
Qed.

(** X5: the highest rated list of the summary view holds exactly the
    records whose score is present and at least 8.0, each as often as the
    dataset has it; it is in descending order of score, whatever the
    dataset; and it is never longer than the count of high records. *)
Theorem highest_ordered (vulns : list Vulnerability) :
  Permutation (highest vulns) (List.filter (scoreAtLeast 8.0) vulns)
  /\ Sorted scoreGe (highest vulns)
  /\ (forall v, In v (highest vulns) <-> In v vulns /\ scoreAtLeast 8.0 v = true)
  /\ length (highest vulns) <= Stats.high (getSummaryStats vulns).
Proof.
  rewrite highest_filter.
  pose proof (sortByScore_Permutation Desc (List.filter (scoreAtLeast 8.0) vulns)) as Hp.
  split; [exact Hp|]. split; [|split].
  - apply sortByScore_Desc_Sorted, List.Forall_forall. intros v Hv.
    apply filter_In in Hv as [_ Hv]. now apply scoreAtLeast_numeric in Hv.
  - intros v. rewrite <- filter_In. split; intros H.
    + eapply Permutation_in; [exact Hp | exact H].
    + eapply Permutation_in; [symmetry; exact Hp | exact H].
  - rewrite (Permutation_length Hp).
    cbn [getSummaryStats Stats.high]. rewrite count_scores.
    apply filter_length_le, scoreAtLeast_8_7.
Qed.


Section SummaryLineFacts.
Variable numberToString : float -> string.




End SummaryLineFacts.

(** ** Year toggles *)

(** X7: toggling a year flips whether it is open and leaves every other
    year, and every other part of the state, as it was; toggling twice
    restores which years are open. *)
Theorem toggleYear_flips (year : string) (st : State) :
  isOpen (openYears (toggleYear year st)) year = negb (isOpen (openYears st) year)
  /\ (forall other, other <> year ->
        isOpen (openYears (toggleYear year st)) other = isOpen (openYears st) other)
  /\ (forall any,
        isOpen (openYears (toggleYear year (toggleYear year st))) any
        = isOpen (openYears st) any)
  /\ setOpenYears (openYears st) (toggleYear year st) = st.
Proof.
  unfold toggleYear. cbn [openYears setOpenYears].
  assert (Hsame : forall m : gmap string bool,
             isOpen (<[year := negb (isOpen m year)]> m) year = negb (isOpen m year)).
  { intros m. unfold isOpen at 1. now rewrite lookup_insert_eq. }
  assert (Hother : forall (m : gmap string bool) other, other <> year ->
             isOpen (<[year := negb (isOpen m year)]> m) other = isOpen m other).
  { intros m other Hne. unfold isOpen at 1 3. now rewrite lookup_insert_ne. }
  split; [apply Hsame|]. split; [apply Hother|]. split.
  - intros any. destruct (decide (any = year)) as [->|Hne].
    + rewrite !Hsame. apply negb_involutive.
    + now rewrite !Hother.
  - now destruct st.
Qed.

(** ** Identifiers *)

Lemma hasSeparator_append c s t :
  JSString.hasSeparator c (s +:+ t) = JSString.hasSeparator c s || JSString.hasSeparator c t.
Proof.
  induction s as [|d s IH]; [reflexivity|].
  rewrite append_cons. cbn [JSString.hasSeparator]. rewrite IH. apply orb_assoc.
Qed.

Lemma split_lacks c s : lacks c s -> JSString.split c s = [s].
Proof.
  intros H. pose proof (split_hasSeparator c s) as Hs. unfold lacks in H.
  destruct (JSString.split c s) as [|seg [|seg' rest]]; [easy| |congruence].
  now destruct Hs as [_ ->].
Qed.

Lemma split_append c s t :
  lacks c s -> JSString.split c (s +:+ String c t) = s :: JSString.split c t.
Proof.
  unfold lacks. induction s as [|d s IH]; cbn [JSString.hasSeparator]; intros H.
  - change ("" +:+ String c t) with (String c t). cbn [JSString.split].
    now rewrite Ascii.eqb_refl.
  - apply orb_false_elim in H as [Hd Hs]. rewrite append_cons.
    cbn [JSString.split]. rewrite Hd, (IH Hs). reflexivity.
Qed.

Lemma prefix_refl p : String.prefix p p = true.
Proof.
  induction p as [|c p IH]; [reflexivity|]. cbn [String.prefix].
  now destruct (ascii_dec c c).
Qed.

Lemma drop_length p : JSString.drop (String.length p) p = "".
Proof. induction p as [|c p IH]; [reflexivity | exact IH]. Qed.

Lemma replace_suffix c e s :
  lacks c s -> JSString.replace (String c e) "" (s +:+ String c e) = s.
Proof.
  unfold lacks. induction s as [|d s IH]; cbn [JSString.hasSeparator]; intros H.
  - change ("" +:+ String c e) with (String c e).
    destruct e; cbn [JSString.replace]; rewrite prefix_refl; apply drop_length.
  - apply orb_false_elim in H as [Hd Hs]. rewrite append_cons.
    cbn [JSString.replace String.prefix].
    destruct (ascii_dec c d) as [->|Hne]; [now rewrite Ascii.eqb_refl in Hd|].
    now rewrite (IH Hs).
Qed.

(** X8: an identifier built from a year and a month that contain neither
    "-" nor "." is read back: it is accepted, its year key is the year,
    its month token is the month, its button label is the identifier
    without the extension, and a month of the month table is
    recognized. *)
Theorem identifier_round_trip (year month : string) :
  lacks "-" year -> lacks "." year -> lacks "-" month -> lacks "." month ->
  JsonViewer.accepts (identifier year month ".json") = true
  /\ yearOf (identifier year month ".json") = year
  /\ JsonViewer.monthOf (identifier year month ".json") = Normal month
  /\ monthLabel ".json" (identifier year month ".json") = year +:+ "-" +:+ month
  /\ (In month MONTH_ORDER -> recognized ".json" (identifier year month ".json")).
Proof.
  intros Hy Hyd Hm Hmd. unfold identifier.
  assert (Hmonth : lacks "-" (month +:+ ".json")).
  { unfold lacks in *. rewrite hasSeparator_append, Hm. reflexivity. }
  assert (Hsplit : JSString.split "-" (year +:+ "-" +:+ month +:+ ".json")
                   = [year; month +:+ ".json"]).
  { change (year +:+ "-" +:+ month +:+ ".json")
      with (year +:+ String "-" (month +:+ ".json")).
    now rewrite (split_append "-" year _ Hy), (split_lacks _ _ Hmonth). }
  assert (Hmo : JsonViewer.monthOf (year +:+ "-" +:+ month +:+ ".json") = Normal month).
  { unfold JsonViewer.monthOf, monthOf. rewrite Hsplit. f_equal.
    apply (replace_suffix "." "json" month Hmd). }
  split; [|split; [|split; [exact Hmo|split]]].
  - apply endsWith_suffix. exists (year +:+ "-" +:+ month).
    now rewrite !append_assoc.
  - unfold yearOf. now rewrite Hsplit.
  - unfold monthLabel.
    replace (year +:+ "-" +:+ month +:+ ".json")
      with ((year +:+ "-" +:+ month) +:+ ".json") by now rewrite !append_assoc.
    apply (replace_suffix "." "json"). unfold lacks in *.
    rewrite !hasSeparator_append, Hyd, Hmd. reflexivity.
  - intros Hin. exists month. split; [exact Hmo | exact Hin].
Qed.

Lemma identifier_round_trip_witness :
  yearOf (identifier "2024" "Nov" ".json") = "2024"
  /\ JsonViewer.monthOf (identifier "2024" "Nov" ".json") = Normal "Nov"
  /\ monthLabel ".json" (identifier "2024" "Nov" ".json") = "2024-Nov".
Proof.
  destruct (identifier_round_trip "2024" "Nov") as (_ & H1 & H2 & H3 & _);
    try reflexivity.
  repeat split; assumption.
Defined.

(** ** When the grouping completes *)

Section CompletesFacts.
Variable accepts : string -> bool.
Variable ext : string.

Lemma groupStep_plainKeys grouped file grouped' :
  plainKeys grouped ->
  groupStep accepts grouped file = Normal grouped' ->
  plainKeys grouped'
  /\ (accepts file = true -> JSArray.includes inheritedKeys (yearOf file) = false).
Proof.
  intros Hp. unfold groupStep.
  destruct (accepts file); cbn [negb]; [|intros [= <-]; split; [assumption|discriminate]].
  destruct (JSArray.includes inheritedKeys (yearOf file)) eqn:E.
  - rewrite (Hp _ E). discriminate.
  - assert (Hins : forall arr, plainKeys (<[yearOf file := arr]> grouped)).
    { intros arr key Hk. rewrite lookup_insert_ne; [now apply Hp | congruence]. }
    destruct (grouped !! yearOf file); intros [= <-]; split; auto.
Qed.

Lemma forEach_plainKeys data : forall grouped grouped',
  plainKeys grouped ->
  forEach (groupStep accepts) grouped data = Normal grouped' ->
  forall file, In file data -> accepts file = true ->
               JSArray.includes inheritedKeys (yearOf file) = false.
Proof.
  induction data as [|f data IH]; intros grouped grouped' Hp H file Hin Hacc; [easy|].
  cbn [forEach] in H. apply bind_Normal_inv in H as (g1 & Hstep & H).
  destruct (groupStep_plainKeys _ _ _ Hp Hstep) as [Hp1 Hf].
  destruct Hin as [->|Hin]; [now apply Hf | now apply (IH g1 grouped')].
Qed.

Lemma sortGroup_completes_iff arr :
  completes (sortGroup ext arr) <->
  length arr <= 1 \/ Forall (fun file => JSString.hasSeparator "-" file = true) arr.
Proof.
  split.
  - intros [sorted H].
    destruct arr as [|x [|y arr]]; [left; simpl; lia | left; simpl; lia | right].
    eapply Forall_impl.
    + eapply sort_Normal_defined with (after := monthAfter ext)
                                      (pure := monthAfterKey ext)
                                      (Q := fun file => completes (monthOf ext file)).
      * intros a b c Hc. now apply monthAfter_Normal in Hc.
      * intros a b c Hc. now apply monthAfter_Normal in Hc.
      * exact H.
      * simpl. lia.
    + intros file. apply monthOf_hasSeparator.
  - intros [Hlen|Hall]; [|now apply sortGroup_completes].
    destruct arr as [|x [|y arr]]; [now eexists | now eexists | simpl in Hlen; lia].
Qed.

Lemma groupIndex_completes_iff data :
  completes (groupIndex accepts ext data) <->
  (forall file, In file data -> accepts file = true -> ~ In (yearOf file) inheritedKeys)
  /\ (forall year,
         2 <= length (membersOf accepts year data) ->
         Forall (fun file => JSString.hasSeparator "-" file = true)
                (membersOf accepts year data)).
Proof.
  unfold groupIndex. split.
  - intros [sorted H]. apply bind_Normal_inv in H as (grouped & Hg & Hs). split.
    + intros file Hin Hacc Hk. apply includes_In in Hk.
      assert (Hempty : plainKeys ∅) by (intros key _; apply lookup_empty).
      rewrite (forEach_plainKeys _ _ _ Hempty Hg file Hin Hacc) in Hk. discriminate.
    + intros year Hlen.
      pose proof (forEach_groupStep_lookup _ _ _ _ Hg year) as Hy.
      rewrite lookup_empty in Hy.
      pose proof (sortGroups_lookup _ _ _ Hs year) as Hl. rewrite Hy in Hl.
      destruct (membersOf accepts year data) as [|f members] eqn:E;
        [simpl in Hlen; lia|].
      destruct Hl as (group & Hsort & _).
      destruct (proj1 (sortGroup_completes_iff (f :: members))) as [Hshort|Hall];
        [now exists group | lia | assumption].
  - intros [Hkeys Hgroups]. apply bind_completes.
    + apply forEach_groupStep_completes. intros file Hin Hacc.
      destruct (JSArray.includes inheritedKeys (yearOf file)) eqn:E; [|reflexivity].
      apply includes_In in E. now destruct (Hkeys file Hin Hacc).
    + intros grouped Hg. apply sortGroups_completes. intros year arr Harr.
      pose proof (forEach_groupStep_lookup _ _ _ _ Hg year) as Hy.
      rewrite lookup_empty, Harr in Hy.
      assert (arr = membersOf accepts year data) as ->
        by (destruct (membersOf accepts year data); congruence).
      apply sortGroup_completes_iff.
      destruct (le_lt_dec (length (membersOf accepts year data)) 1); [now left|].
      right. apply Hgroups. lia.
Qed.

End CompletesFacts.

Section ThrowFacts.
Variable accepts : string -> bool.
Variable ext : string.

Lemma bind_Throw_inv {A B} (c : completion A) (f : A -> completion B) e :
  c ≫= f = Throw e -> c = Throw e \/ exists a, c = Normal a /\ f a = Throw e.
Proof. destruct c as [a|e']; [right; eauto | intros [= ->]; now left]. Qed.

Lemma forEach_Throw data : forall grouped e,
  forEach (groupStep accepts) grouped data = Throw e -> e = notAFunction.
Proof.
  induction data as [|file data IH]; intros grouped e H; [discriminate|].
  cbn [forEach] in H. apply bind_Throw_inv in H as [H|(g1 & _ & H)]; [|eauto].
  unfold groupStep in H. destruct (negb (accepts file)); [discriminate|].
  destruct (grouped !! yearOf file); [discriminate|].
  destruct (JSArray.includes inheritedKeys (yearOf file)); congruence.
Qed.

Lemma monthAfter_Throw a b e : monthAfter ext a b = Throw e -> e = undefinedReplace.
Proof.
  unfold monthAfter, compareMonths, monthOf.
  destruct (JSString.split "-" a) as [|? [|? ?]]; try (intros [= <-]; reflexivity);
    destruct (JSString.split "-" b) as [|? [|? ?]]; intros [= <-]; reflexivity.
Qed.

Lemma insert_Throw x l e :
  JSArray.insert (monthAfter ext) x l = Throw e -> e = undefinedReplace.
Proof.
  induction l as [|y l IH]; cbn [JSArray.insert]; [discriminate|]. intros H.
  apply bind_Throw_inv in H as [H|(b & _ & H)]; [now apply monthAfter_Throw in H|].
  destruct b; [|discriminate].
  apply bind_Throw_inv in H as [H|(r & _ & H)]; [auto | discriminate].
Qed.

Lemma sortGroup_Throw arr e : sortGroup ext arr = Throw e -> e = undefinedReplace.
Proof.
  unfold sortGroup. induction arr as [|x arr IH]; cbn [JSArray.sort]; [discriminate|].
  intros H. apply bind_Throw_inv in H as [H|(s & _ & H)]; [auto|].
  now apply insert_Throw in H.
Qed.

Lemma sortGroups_Throw grouped e :
  sortGroups ext grouped = Throw e -> e = undefinedReplace.
Proof.
  unfold sortGroups. revert e.
  apply (map_fold_weak_ind (fun r (m : gmap string (list string)) =>
           forall e, r = Throw e -> e = undefinedReplace)).
  - discriminate.
  - intros year arr m r _ IH e H.
    apply bind_Throw_inv in H as [H|(done & _ & H)]; [auto|].
    apply bind_Throw_inv in H as [H|(sorted & _ & H)];
      [now apply sortGroup_Throw in H | discriminate].
Qed.

Lemma groupIndex_Throw data e :
  groupIndex accepts ext data = Throw e -> e = notAFunction \/ e = undefinedReplace.
Proof.
  unfold groupIndex. intros H.
  apply bind_Throw_inv in H as [H|(grouped & _ & H)].
  - left. now apply forEach_Throw in H.
  - right. now apply sortGroups_Throw in H.
Qed.

End ThrowFacts.

(** X9: the grouping of an index completes exactly when no accepted
    identifier has an inherited property name as its year key and every
    year with two or more accepted identifiers has a separator in each of
    them; otherwise it throws one of two TypeErrors, for the missing
    [push] or for the missing month token. *)
Theorem groupIndex_completes_exactly (data : list string) :
  (completes (JsonViewer.groupIndex data) <->
   (forall file,
       In file data -> JSString.endsWith file ".json" = true ->
       ~ In (yearOf file) inheritedKeys)
   /\ (forall year,
          2 <= length (membersOf JsonViewer.accepts year data) ->
          Forall (fun file => JSString.hasSeparator "-" file = true)
                 (membersOf JsonViewer.accepts year data)))
  /\ (completes (JsonViewer.groupIndex data)
      \/ JsonViewer.groupIndex data = Throw notAFunction
      \/ JsonViewer.groupIndex data = Throw undefinedReplace).
Proof.
  split; [apply groupIndex_completes_iff|].
  destruct (JsonViewer.groupIndex data) as [grouped|e] eqn:E.
  - left. now exists grouped.
  - right. destruct (groupIndex_Throw _ _ _ _ E) as [->| ->]; auto.
Qed.

(** ** Text viewer *)

Lemma membersOf_all year data :
  membersOf TextViewer.accepts year data
  = List.filter (fun file => String.eqb (yearOf file) year) data.
Proof. reflexivity. Qed.

(** X10: the text viewer groups every identifier of the index, whatever
    its extension: in a completed grouping each identifier is in the group
    of its year key, each group holds the identifiers of that key as often
    as the index has them, in the order of their month positions; and the
    grouping completes exactly when no year key is an inherited property
    name and every year with two or more identifiers has a separator in
    each of them. *)
Theorem TextViewer_groups_all (data : list string) :
  (forall grouped,
      TextViewer.groupIndex data = Normal grouped ->
      (forall file, In file data ->
                    exists group, grouped !! yearOf file = Some group /\ In file group)
      /\ (forall year group,
             grouped !! year = Some group ->
             Permutation group
               (List.filter (fun file => String.eqb (yearOf file) year) data)
             /\ Sorted (monthLe ".txt") group))
  /\ (completes (TextViewer.groupIndex data) <->
      (forall file, In file data -> ~ In (yearOf file) inheritedKeys)
      /\ (forall year,
             2 <= length (List.filter (fun file => String.eqb (yearOf file) year) data) ->
             Forall (fun file => JSString.hasSeparator "-" file = true)
                    (List.filter (fun file => String.eqb (yearOf file) year) data))).
Proof.
  split.
  - intros grouped H. split.
    + intros file Hin.
      pose proof (groupIndex_lookup _ _ _ _ (yearOf file) H) as Hl.
      rewrite membersOf_all in Hl.
      assert (Hmem : In file (List.filter (fun f => String.eqb (yearOf f) (yearOf file)) data))
        by (apply filter_In; split; [assumption | apply String.eqb_refl]).
      destruct (List.filter _ data) as [|f members]; [contradiction|].
      destruct Hl as (group & Hs & Hy). exists group. split; [assumption|].
      apply sortGroup_Permutation in Hs.
      eapply Permutation_in; [symmetry; exact Hs | assumption].
    + intros year group Hy.
      destruct (groupIndex_group _ _ _ _ _ _ H Hy) as [_ Hs].
      rewrite membersOf_all in Hs.
      split; [now apply sortGroup_Permutation in Hs | now apply sortGroup_Sorted in Hs].
  - unfold TextViewer.groupIndex. rewrite groupIndex_completes_iff.
    split; intros [Hk Hg]; (split; [|exact Hg]); intros file Hin; [|intros _]; now apply Hk.
Qed.

Lemma TextViewer_groups_all_witness :
  let data := ["2024-Dec.txt"; "notes.md"; "2024-Jan.txt"] in
  (exists group,
      (<["2024" := ["2024-Jan.txt"; "2024-Dec.txt"]]> {["notes.md" := ["notes.md"]]}
        : gmap string (list string)) !! yearOf "notes.md" = Some group
      /\ In "notes.md" group).
Proof.
  intros data.
  apply (proj1 (TextViewer_groups_all data)); [vm_compute; reflexivity|].
  simpl. auto.
Defined.

(** ** Index loader *)



(** ** Month loader and the view *)

(** X12: after a successful month fetch and the filter effect that follows
    it, the view holds every record of the fetched dataset, each once per
    occurrence, in the dataset's own order when no sort is selected; its
    total is the number of records of the dataset. *)
Theorem monthLoaded_shows_all (file : string) (json : PatchTuesdayData) (st : State) :
  exists st',
    monthSettled file (Response true (Normal json)) st = Normal st'
    /\ Permutation (filteredVulns (filterEffect st')) (vulnerabilities json)
    /\ (cvssSort st = NoSort -> filteredVulns (filterEffect st') = vulnerabilities json)
    /\ filteredVulns (filterEffect st') = sortByScore (cvssSort st) (vulnerabilities json)
    /\ Stats.total (getSummaryStats (filteredVulns (filterEffect st')))
       = length (vulnerabilities json).
Proof.
  eexists. split; [reflexivity|].
  assert (Hview : filteredVulns (filterEffect (setLoading false (monthLoaded json st)))
                  = sortByScore (cvssSort st) (vulnerabilities json)) by reflexivity.
  rewrite Hview. split; [apply sortByScore_Permutation|]. split; [now intros ->|].
  split; [reflexivity|].
  cbn [getSummaryStats Stats.total].
  apply Permutation_length, sortByScore_Permutation.
Qed.

Lemma monthLoaded_shows_all_witness :
  let json := mkPatchTuesdayData (Metadata.mk "" "" "" "" 0%float "" "") []
                [scored (Some 5.0%float); scored None] in
  exists st',
    monthSettled "2024-Jan.json" (Response true (Normal json))
                 (setSelectedCategory "Windows" initialState) = Normal st'
    /\ filteredVulns (filterEffect st') = vulnerabilities json.
Proof.
  intros json.
  destruct (monthLoaded_shows_all "2024-Jan.json" json
              (setSelectedCategory "Windows" initialState))
    as (st' & H & _ & Hsame & _).
  exists st'. split; [exact H | now apply Hsame].
Defined.

(** X13: whatever the outcome, the month chain settles with [loading]
    off and logs at most one diagnostic; it never touches the navigation,
    the open years, the selection, the sort order or the derived view; and
    after a failure the filter effect has nothing to do, so the view keeps
    the records of the month shown before. *)
Theorem monthSettled_frame (file : string) (res : fetched PatchTuesdayData) (st : State) :
  exists st',
    monthSettled file res st = Normal st'
    /\ loading st' = false
    /\ patches st' = patches st
    /\ openYears st' = openYears st
    /\ selected st' = selected st
    /\ cvssSort st' = cvssSort st
    /\ filteredVulns st' = filteredVulns st
    /\ (console st' = console st \/ exists e, console st' = console st ++ [("Error loading patch content:", e)])
    /\ (fetchFails res ->
        filterEffect st' = st'
        /\ selectedCategory st' = selectedCategory st
        /\ showSummary st' = showSummary st).
Proof.
  unfold monthSettled.
  destruct (checkResponse file res) as [json|e] eqn:E; eexists; (split; [reflexivity|]).
  - repeat (split; [reflexivity|]). split; [now left|].
    intros Hf. apply (checkResponse_fails file) in Hf as [e He]. congruence.
  - repeat (split; [reflexivity|]). split; [right; now exists e|].
    intros _. repeat split.
Qed.

Lemma monthSettled_frame_witness :
  let shown := setFilteredVulns [scored (Some 5.0%float)] initialState in
  let res : fetched PatchTuesdayData := Response false (Throw (SyntaxError "")) in
  exists st',
    monthSettled "2024-Jan.json" res shown = Normal st'
    /\ filterEffect st' = st'
    /\ filteredVulns st' = [scored (Some 5.0%float)].
Proof.
  intros shown res.
  destruct (monthSettled_frame "2024-Jan.json" res shown)
    as (st' & H & _ & _ & _ & _ & _ & Hview & _ & Hfail).
  exists st'. split; [exact H|]. split; [|exact Hview].
  apply Hfail. now left.
Defined.

(** X14: the settlement that comes last decides what is shown: after two
    month chains have settled one after the other, the dataset, the
    category list and the loading flag are those the second one alone
    would have given, whichever selection it was fetched for. *)
Theorem monthSettled_last_wins (file1 file2 : string)
  (res1 res2 : fetched PatchTuesdayData) (st : State) :
  exists st1 st2 alone,
    monthSettled file1 res1 st = Normal st1
    /\ monthSettled file2 res2 st1 = Normal st2
    /\ monthSettled file2 res2 st = Normal alone
    /\ data st2 = data alone
    /\ categories st2 = categories alone
    /\ loading st2 = loading alone
    /\ selected st2 = selected st.
Proof.
  unfold monthSettled.
  destruct (checkResponse file1 res1), (checkResponse file2 res2);
    do 3 eexists; repeat split.
Qed.

(** ** Counts under reordering and filtering *)

Lemma filter_length_Permutation {A} (f : A -> bool) l l' :
  Permutation l l' -> length (List.filter f l) = length (List.filter f l').
Proof.
  induction 1 as [|x l l' _ IH|x y l|l l' l'' _ IH1 _ IH2]; cbn [List.filter].
  - reflexivity.
  - destruct (f x); simpl; now rewrite IH.
  - destruct (f x), (f y); reflexivity.
  - now rewrite IH1.
Qed.

Lemma byType_ext l l' :
  (forall f : Vulnerability -> bool, length (List.filter f l) = length (List.filter f l')) ->
  Stats.byType (getSummaryStats l) = Stats.byType (getSummaryStats l').
Proof.
  intros H. apply map_eq. intros type. rewrite !byType_lookup.
  destruct (JSArray.includes VULN_TYPES type); [|reflexivity]. now rewrite H.
Qed.


(** X15: the counts of the summary do not depend on the order of the
    records: two sequences that are permutations of each other have the
    same total, exploited, likely, high, critical and per-type counts; so
    sorting the view by score changes none of them.  Every count is at
    most the total. *)
Theorem getSummaryStats_order_free (l l' : list Vulnerability) :
  Permutation l l' ->
  Stats.total (getSummaryStats l) = Stats.total (getSummaryStats l')
  /\ Stats.exploited (getSummaryStats l) = Stats.exploited (getSummaryStats l')
  /\ Stats.likely (getSummaryStats l) = Stats.likely (getSummaryStats l')
  /\ Stats.high (getSummaryStats l) = Stats.high (getSummaryStats l')
  /\ Stats.critical (getSummaryStats l) = Stats.critical (getSummaryStats l')
  /\ Stats.byType (getSummaryStats l) = Stats.byType (getSummaryStats l')
  /\ Stats.exploited (getSummaryStats l) <= Stats.total (getSummaryStats l)
  /\ Stats.likely (getSummaryStats l) <= Stats.total (getSummaryStats l)
  /\ Stats.high (getSummaryStats l) <= Stats.total (getSummaryStats l)
  /\ (forall type n, Stats.byType (getSummaryStats l) !! type = Some n ->
                     n <= Stats.total (getSummaryStats l)).
Proof.
  intros Hp.
  assert (Hf : forall f : Vulnerability -> bool,
             length (List.filter f l) = length (List.filter f l'))
    by (intros f; now apply filter_length_Permutation).
  split; [now apply Permutation_length|].
  split; [apply Hf|]. split; [apply Hf|].
  split; [cbn [getSummaryStats Stats.high]; rewrite !count_scores; apply Hf|].
  split; [cbn [getSummaryStats Stats.critical]; rewrite !count_scores; apply Hf|].
  split; [now apply byType_ext|].
  split; [apply List.filter_length_le|]. split; [apply List.filter_length_le|].
  split; [cbn [getSummaryStats Stats.high Stats.total]; rewrite count_scores;
          apply List.filter_length_le|].
  intros type n. rewrite byType_lookup.
  destruct (JSArray.includes VULN_TYPES type); [|discriminate].
  intros [= <-]. apply List.filter_length_le.
Qed.

Lemma getSummaryStats_order_free_witness :
  let vulns := [scored (Some 5.0%float); scored (Some 9.8%float); scored None] in
  Stats.high (getSummaryStats (filterAndSort "" Desc vulns))
  = Stats.high (getSummaryStats vulns)
  /\ Stats.byType (getSummaryStats (filterAndSort "" Desc vulns))
     = Stats.byType (getSummaryStats vulns).
Proof.
  intros vulns.
  destruct (getSummaryStats_order_free (filterAndSort "" Desc vulns) vulns)
    as (_ & _ & _ & Hh & _ & Hb & _).
  - apply sortByScore_Permutation.
  - split; assumption.
Defined.



(** X17: the score sort is stable: records whose scores, absent counting
    as 0, are equal as numbers keep the order they had, in either
    direction and whatever the other scores are. *)
Theorem sortByScore_stable (cvssSort : SortOrder) (k : float) (vulns : list Vulnerability) :
  List.filter (scoreIs k) (sortByScore cvssSort vulns) = List.filter (scoreIs k) vulns.
Proof.
  destruct cvssSort; [reflexivity| |]; apply sort_by_stable; unfold scoreIs, scoreAfter,
    compareScores, JSNumber.positive; intros x y Hx Hy.
  - now apply (Binary64Ties.tie_not_positive _ _ k).
  - now apply (Binary64Ties.tie_not_positive _ _ k).
Qed.

(** ** Paragraphs of the text viewer *)

Lemma split_nonempty c s : JSString.split c s <> [].
Proof. pose proof (split_hasSeparator c s). now destruct (JSString.split c s). Qed.

Lemma join_cons sep x l :
  l <> [] -> JSText.join sep (x :: l) = x +:+ sep +:+ JSText.join sep l.
Proof. now destruct l. Qed.

(** X18: the paragraphs of the text viewer are the lines of the content:
    joined by line feeds they give the content back, none contains a line
    feed, and there is one more of them than there are line feeds. *)
Theorem paragraphs_lines (content : string) :
  JSText.join (String JSText.newline "") (paragraphs content) = content
  /\ Forall (lacks JSText.newline) (paragraphs content)
  /\ length (paragraphs content) = S (JSText.count JSText.newline content).
Proof.
  unfold paragraphs. generalize JSText.newline. intros c.
  induction content as [|d s (IHj & IHl & IHn)]; cbn [JSString.split JSText.count].
  - repeat split. repeat constructor.
  - pose proof (split_nonempty c s) as Hne.
    destruct (Ascii.eqb d c) eqn:E.
    + apply Ascii.eqb_eq in E as ->. split; [|split].
      * rewrite (join_cons _ _ _ Hne), IHj. reflexivity.
      * constructor; [reflexivity | assumption].
      * cbn [length]. now rewrite IHn.
    + destruct (JSString.split c s) as [|seg rest]; [contradiction|]. split; [|split].
      * destruct rest as [|seg' rest]; [cbn [JSText.join] in *; now rewrite IHj|].
        rewrite join_cons in * by discriminate.
        rewrite append_cons, IHj. reflexivity.
      * inversion IHl as [|? ? Hseg Hrest]; subst. constructor; [|assumption].
        unfold lacks in *. cbn [JSString.hasSeparator]. now rewrite E, Hseg.
      * exact IHn.
Qed.
